(** * sfdx-data-splitter: the data splitter and the command pipeline

    A shallow embedding of the plugin's JavaScript sources:
    - [lib/messages.js]        the message catalog and [getMessage];
    - [lib/pluginError.js]     the error factory [PluginError];
    - [lib/data/dataApi.js]    [_breakupDataFile], [_splitFiles], [Data.split];
    - [lib/utils.js]           reporters, telemetry, exit and [_execCommand].

    A thrown exception or a rejected promise is an outcome of its own
    ([Throw], [Abrupt]); module-level variables, the file system, the
    process exit code and what is printed are explicit state. *)

From Stdlib Require Import ZArith QArith Qround String Ascii List Lia.
From Stdlib Require Import DecimalString DecimalNat DecimalFacts.
From stdpp Require Import gmap strings list.
Import ListNotations.

Set Warnings "-register-all".
Close Scope Q_scope.
Open Scope string_scope.
Open Scope list_scope.
Open Scope nat_scope.

(** ** JavaScript values, errors and results *)

(** The JSON-shaped values that commands resolve with and files hold. *)
Inductive value : Type :=
| VUndefined
| VNull
| VBool (b : bool)
| VNum (n : Z)
| VStr (s : string)
| VArr (items : list value)
| VObj (fields : list (string * value)).

(** An [Error] object with the optional fields the reporters look at.
    Stack traces are not modelled. *)
Record JsError : Type := mkJsError {
  err_name : string;
  err_message : string;
  err_action : option string;
  err_rows : option value;
  err_columns : option value
}.

(** [new Error(msg)] *)
Definition newError (msg : string) : JsError :=
  mkJsError "Error" msg None None None.

(** The error of a property read on [undefined]. *)
Definition typeError (msg : string) : JsError :=
  mkJsError "TypeError" msg None None None.

(** Normal completion or a thrown exception. *)
Inductive result (A : Type) : Type :=
| Ok (a : A)
| Throw (e : JsError).
Arguments Ok {A} a.
Arguments Throw {A} e.

Definition result_bind {A B} (r : result A) (k : A -> result B) : result B :=
  match r with
  | Ok a => k a
  | Throw e => Throw e
  end.


(** Association lists model object literals used as tables. *)
Definition table := list (string * string).

Fixpoint table_get (t : table) (key : string) : option string :=
  match t with
  | [] => None
  | (k, v) :: rest => if String.eqb k key then Some v else table_get rest key
  end.

(** Number-to-string conversion of a non-negative integer. *)
Definition decimal (n : nat) : string := NilZero.string_of_uint (Nat.to_uint n).

(** [s.split(sep)] for a one-character separator. *)
Fixpoint split_on (sep : ascii) (s : string) : list string :=
  match s with
  | EmptyString => [EmptyString]
  | String c rest =>
      if Ascii.eqb c sep then EmptyString :: split_on sep rest
      else match split_on sep rest with
           | [] => [String c EmptyString]
           | h :: t => String c h :: t
           end
  end.

(** [s.includes(sub)], which is what [s.match(/sub/)] tests for a pattern
    without special characters. *)
Fixpoint includes (sub s : string) : bool :=
  if String.prefix sub s then true
  else match s with
       | EmptyString => false
       | String _ rest => includes sub rest
       end.

(** [s.endsWith(".")] *)
Fixpoint endsWithDot (s : string) : bool :=
  match s with
  | EmptyString => false
  | String c EmptyString => Ascii.eqb c "."
  | String _ rest => endsWithDot rest
  end.

(** ** Node's [path] functions, on normalised POSIX paths *)

Definition path_join (dir name : string) : string := dir +:+ "/" +:+ name.

Definition path_basename (p : string) : string :=
  List.last (split_on "/" p) EmptyString.

Definition path_dirname (p : string) : string :=
  match List.removelast (split_on "/" p) with
  | [] => "."
  | [EmptyString] => "/"
  | parts => String.concat "/" parts
  end.

Definition path_resolve (cwd p : string) : string :=
  if String.prefix "/" p then p else path_join cwd p.

(** ** Completions and the state monad of the embedding *)

(** How a piece of JavaScript ends: normally with a value, with an
    exception (a rejected promise, for asynchronous code), or because
    [process.exit] ended the process.  [T] is the type of exit codes; code
    that cannot end the process has [T = Empty_set]. *)
Inductive completion (T A : Type) : Type :=
| Normal (a : A)
| Abrupt (e : JsError)
| Terminated (code : T).
Arguments Normal {T A} a.
Arguments Abrupt {T A} e.
Arguments Terminated {T A} code.

(** Code over a state [S]. *)
Definition Js (T S A : Type) : Type := S -> completion T A * S.

Definition ret {T S A} (a : A) : Js T S A := fun s => (Normal a, s).
Definition throw {T S A} (e : JsError) : Js T S A := fun s => (Abrupt e, s).
Definition bind {T S A B} (c : Js T S A) (k : A -> Js T S B) : Js T S B :=
  fun s => match c s with
           | (Normal a, s') => k a s'
           | (Abrupt e, s') => (Abrupt e, s')
           | (Terminated code, s') => (Terminated code, s')
           end.
Definition gets {T S A} (f : S -> A) : Js T S A := fun s => (Normal (f s), s).
Definition modify {T S} (f : S -> S) : Js T S unit := fun s => (Normal tt, f s).
Definition lift {T S A} (r : result A) : Js T S A :=
  match r with
  | Ok a => ret a
  | Throw e => throw e
  end.

Notation "'let*' x ':=' c 'in' k" := (bind c (fun x => k))
  (at level 10, x name, c at level 100, k at level 200).
Notation "c '>>' k" := (bind c (fun _ => k))
  (at level 100, k at level 200, right associativity).

(** Promise chaining: [p |> then_ f |> catch_ h |> finally_ g] reads as
    [p.then(f).catch(h).finally(g)]. *)
Definition then_ {T S A B} (f : A -> Js T S B) (p : Js T S A) : Js T S B :=
  bind p f.

Definition catch_ {T S A} (h : JsError -> Js T S A) (p : Js T S A) : Js T S A :=
  fun s => match p s with
           | (Abrupt e, s') => h e s'
           | other => other
           end.

(** [finally] runs its handler on fulfilment and on rejection and passes
    the settled outcome on, unless the handler itself fails. *)
Definition finally_ {T S A B} (g : Js T S B) (p : Js T S A) : Js T S A :=
  fun s => match p s with
           | (Terminated code, s') => (Terminated code, s')
           | (settled, s') =>
               match g s' with
               | (Normal _, s'') => (settled, s'')
               | (Abrupt e, s'') => (Abrupt e, s'')
               | (Terminated code, s'') => (Terminated code, s'')
               end
           end.

Notation "p '|>' f" := (f p) (at level 50, left associativity, only parsing).

(** Two concrete readings of the open pieces of [util.format], for the
    sample runs: Node 12 and later print a string argument as it is, and a
    template without placeholders is followed by its arguments. *)
Definition inspect_plain (s : string) : string := s.

Definition format_append (template : string) (args : list string) : string :=
  String.concat " " (template :: args).

Section Plugin.

(** Two pieces of Node's [util.format] are left open: how a string argument
    is printed when the template is not a string ([util.inspect], whose
    quoting changed between Node versions), and the substitution of
    arguments into a template. *)
Variable util_inspect : string -> string.
Variable format_placeholders : string -> list string -> string.

(** [util.format(f, ...args)]: a lone string comes back as it is; when the
    first argument is [undefined] every argument is inspected and the
    pieces are joined by spaces. *)
Definition util_format (f : option string) (args : list string) : string :=
  match f with
  | None => String.concat " " ("undefined" :: map util_inspect args)
  | Some template =>
      match args with
      | [] => template
      | _ => format_placeholders template args
      end
  end.

(** ** lib/messages.js *)

Definition _getLocale : string := "en_US".

Definition messages_default : table :=
  [("displayCommandDataSplitHelp",
    "Break up large data files into file with 200 or less records")].

Definition messages_data : table :=
  [("name", "data");
   ("mainTopicDescriptionHelp", "Utility for manipulating data");
   ("mainTopicLongDescriptionHelp", "Utility for manipulating data")].

Definition messages_data_split : table :=
  [("help", "Split data files that have more than 200 records into smaller bits");
   ("description", "Split large data files into smaller ones");
   ("longDescription", "Split large data files into smaller ones");
   ("GeneralError", "A general error for the Data split command.");
   ("dataSplitFileNotFound", "Could not find specified file")].

(** [messages[bundle][locale]] for the locale the module is created with.
    Every bundle has an [en_US] table, so the [return null] of [getMessage]
    for a missing locale is never taken and is left out. *)
Definition messages (bundle : string) : option table :=
  if String.eqb bundle "default" then Some messages_default
  else if String.eqb bundle "data" then Some messages_data
  else if String.eqb bundle "data_split" then Some messages_data_split
  else None.

(** [getMessage(label, args, bundle)]; [args = None] is [undefined]. *)
Definition getMessage (label : string) (args : option (list string))
    (bundle : string) : result string :=
  match messages bundle with
  | None => Throw (typeError "Cannot read property 'en_US' of undefined")
  | Some bundleLocale =>
      match table_get bundleLocale label with
      | None =>
          Throw (newError
                   (util_format (table_get bundleLocale "UndefinedLocalizationLabel")
                                [bundle; label; _getLocale]))
      | Some text =>
          match args with
          | None => Ok text
          | Some a => Ok (util_format (Some text) a)
          end
      end
  end.

(** ** lib/pluginError.js *)

Definition PluginErrors : table :=
  [("dataSplitFileNotFound", "InvalidDataImport");
   ("sourcePushFailed", "DeployFailed")].

(** A key is a plain string or a [{keyName, bundle}] object. *)
Inductive errorKey : Type :=
| KeyString (key : string)
| KeyObject (keyName bundle : string).

Definition _updateError (key : errorKey) (tokens : option (list string))
    : result string :=
  match key with
  | KeyString k => getMessage k tokens "default"
  | KeyObject k b => getMessage k tokens b
  end.

Definition PluginError (errKey : errorKey) (errorTokens : option (list string))
    (actionKey : option errorKey) (actionTokens : option (list string))
    : result JsError :=
  result_bind (_updateError errKey errorTokens) (fun msg =>
  result_bind (match actionKey with
               | None => Ok None
               | Some k => result_bind (_updateError k actionTokens)
                                       (fun a => Ok (Some a))
               end) (fun act =>
  let key := match errKey with KeyString k => k | KeyObject k _ => k end in
  let name := match table_get PluginErrors key with
              | Some n => n
              | None => key
              end in
  Ok (mkJsError name msg act None None))).

(** ** lib/data/dataApi.js *)

(** The flags and fields of the CLI context that the plugin reads. *)
Record Org : Type := mkOrg {
  usingAccessToken : bool;      (* context.org.usingAccessToken *)
  org_isFunction : bool;        (* util.isFunction(context.org) *)
  org_getConfig : result value  (* how context.org.getConfig() settles *)
}.

Record Context : Type := mkContext {
  flags_dataplan : string;      (* context.flags.dataplan *)
  flags_json : bool;            (* context.flags.json === true *)
  ctx_json : bool;              (* context.json *)
  ctx_org : option Org;         (* context.org *)
  ctx_cmd : option string;      (* context.cmd *)
  ctx_command : option (string * string); (* context.command: topic, command *)
  showProgress : bool;          (* context.showProgress *)
  softExit : bool;              (* context.softExit is truthy *)
  requiresWorkspace : bool      (* context.requiresWorkspace *)
}.

(** What a JSON file holds once [require] has parsed it: a data file
    [{records: [...]}] or a plan, an array of entries [{files: [...]}].
    Writing [JSON.stringify(v, null, 4)] stores [v]. *)
Inductive contents : Type :=
| DataJson (records : list value)
| PlanJson (plan : list (list string)).

(** The state [_splitFiles] works on.  [arrays] holds the array objects
    that were bound to the module variable [temparray], in creation order;
    [temparray] is the index of the one bound now.  [fs.writeFile] is
    asynchronous: the calls are logged in issue order in [written] and
    reads go to [disk], the files as they are when the command starts. *)
Record world : Type := mkWorld {
  cwd : string;
  disk : gmap string contents;
  arrays : list (list string);
  temparray : nat;
  written : list (string * contents)
}.

(** [let temparray = []] at module load. *)
Definition initial_world (dir : string) (d : gmap string contents) : world :=
  mkWorld dir d [[]] 0 [].

(** The files once every logged write has landed, in issue order. *)
Definition final_disk (w : world) : gmap string contents :=
  fold_left (fun d nc => <[fst nc := snd nc]> d) (written w) (disk w).

(** Code over the world; it never ends the process. *)
Definition M (A : Type) : Type := Js Empty_set world A.

(** The array [temparray] is bound to. *)
Definition current_array (w : world) : list string :=
  default [] (arrays w !! temparray w).

(** [temparray.push(x)]: the array object is changed in place, so every
    reference to it sees the new element. *)
Definition temparray_push (x : string) : M unit :=
  modify (fun w =>
    mkWorld (cwd w) (disk w)
            (<[temparray w := current_array w ++ [x]]> (arrays w))
            (temparray w) (written w)).

(** [temparray = []]: a fresh array object; older references keep the old
    one. *)
Definition temparray_reset : M unit :=
  modify (fun w =>
    mkWorld (cwd w) (disk w) (arrays w ++ [[]]) (length (arrays w)) (written w)).

Definition _validateFile (path : string) : M bool :=
  gets (fun w => match disk w !! path with Some _ => true | None => false end).

Definition _writeFile (name : string) (c : contents) : M unit :=
  modify (fun w =>
    mkWorld (cwd w) (disk w) (arrays w) (temparray w) (written w ++ [(name, c)])).

Definition _writeDataFile (datafolder fileName : string) (records : list value)
    : M unit :=
  _writeFile (path_join datafolder fileName) (DataJson records) >>
  temparray_push fileName.

(** [require(path).records] followed by the read of [records.length]. *)
Definition require_records (path : string) : M (list value) :=
  let* file := gets (fun w => disk w !! path) in
  match file with
  | Some (DataJson records) => ret records
  | Some (PlanJson _) => throw (typeError "Cannot read property 'length' of undefined")
  | None => throw (newError ("Cannot find module '" +:+ path +:+ "'"))
  end.

(** [fname[k]] inside a string concatenation: a missing element prints as
    [undefined]. *)
Definition js_index (fname : list string) (k : nat) : string :=
  default "undefined" (fname !! k).

Definition chunk : nat := 200.

Definition chunk_fileName (f : string) (i : nat) : string :=
  let fname := split_on "." (path_basename f) in
  js_index fname 0 +:+ decimal i +:+ "." +:+ js_index fname 1.

(** The loop [for (i = 0, j = records.length; i < j; i += chunk)] from
    index [i] on; [fuel] bounds the number of iterations. *)
Fixpoint breakup_loop (fuel : nat) (datafolder f : string)
    (records : list value) (i : nat) : M unit :=
  match fuel with
  | O => ret tt
  | S fuel' =>
      if i <? length records then
        _writeDataFile datafolder (chunk_fileName f i)
                       (take chunk (drop i records)) >>
        breakup_loop fuel' datafolder f records (i + chunk)
      else ret tt
  end.

(** Every iteration advances [i] by 200, so [records.length] iterations
    are more than the loop can make. *)
Definition _breakupDataFile (datafolder f : string) : M unit :=
  let* records := require_records (path_join datafolder f) in
  if length records <=? 200 then temparray_push f
  else temparray_reset >> breakup_loop (length records) datafolder f records 0.

(** The [files] property of a plan entry: the array parsed from the
    manifest, or a reference to an array that [temparray] was bound to. *)
Inductive filesRef : Type :=
| OwnArray (files : list string)
| TempArray (a : nat).

Definition deref (w : world) (r : filesRef) : list string :=
  match r with
  | OwnArray files => files
  | TempArray a => default [] (arrays w !! a)
  end.

(** The inner [_.forEach(p.files, ...)]. *)
Fixpoint forEach_files (datafolder : string) (files : list string) : M unit :=
  match files with
  | [] => ret tt
  | f :: rest => _breakupDataFile datafolder f >> forEach_files datafolder rest
  end.

(** The outer [_.forEach(plan, ...)]: [done] are the entries already
    visited, [todo] the ones to come.  Each visit ends with
    [p.files = temparray] and a write of the whole plan as it is then. *)
Fixpoint forEach_plan (filepath datafolder : string)
    (done todo : list filesRef) : M (list filesRef) :=
  match todo with
  | [] => ret done
  | p :: rest =>
      let* files := gets (fun w => deref w p) in
      forEach_files datafolder files >>
      let* t := gets temparray in
      let done' := done ++ [TempArray t] in
      let* snapshot := gets (fun w => map (deref w) (done' ++ rest)) in
      _writeFile filepath (PlanJson snapshot) >>
      forEach_plan filepath datafolder done' rest
  end.

(** [require(filepath)] of the manifest.  The [console.log] lines of the
    module are not recorded. *)
Definition require_plan (filepath : string) : M contents :=
  let* file := gets (fun w => disk w !! filepath) in
  match file with
  | Some c => ret c
  | None => throw (newError ("Cannot find module '" +:+ filepath +:+ "'"))
  end.

(** [throw pluginError(messages.getMessage('dataSplitFileNotFound', [],
    'data_split'))]: the message text is looked up first and then handed
    to [pluginError] as its error key. *)
Definition throw_fileNotFound {A} : M A :=
  let* text := lift (getMessage "dataSplitFileNotFound" (Some []) "data_split") in
  let* e := lift (PluginError (KeyString text) None None None) in
  throw e.

Definition _splitFiles (context : Context) : M unit :=
  let* dir := gets cwd in
  let filepath := path_resolve dir (flags_dataplan context) in
  let datafolder := path_dirname filepath in
  let* found := _validateFile filepath in
  if negb found then throw_fileNotFound
  else
    let* plan := require_plan filepath in
    match plan with
    | PlanJson entries =>
        forEach_plan filepath datafolder [] (map OwnArray entries) >> ret tt
    | DataJson records =>
        (* an object with the one property [records]: one visit, whose
           [p.files] is undefined; the array property set on [records] is
           not serialised *)
        _writeFile filepath (DataJson records)
    end.

(** [Data.prototype.split]: [Promise.resolve(_splitFiles(context))]. *)
Definition split (context : Context) : M unit := _splitFiles context.

(** The manifest entries as the last write of [filepath] left them. *)
Definition manifest_after (filepath : string) (w : world) : option contents :=
  final_disk w !! filepath.

(** *** Reading the result of a split *)

(** The start indices [i, i + 200, ...] of [n] consecutive chunks. *)
Definition chunk_starts (n i : nat) : list nat :=
  (fun k => i + chunk * k) <$> seq 0 n.

(** The number of chunks of 200 that cover the indices from [i] up to
    [j], that is [ceil((j - i) / 200)]. *)
Definition chunks_needed (j i : nat) : nat := (j - i + 199) / 200.

(** The records of the chunk that starts at index [s]. *)
Definition chunk_at (records : list value) (s : nat) : list value :=
  take chunk (drop s records).

(** The write that [_writeDataFile] issues for the chunk at [s]. *)
Definition chunk_write (datafolder f : string) (records : list value) (s : nat)
    : string * contents :=
  (path_join datafolder (chunk_fileName f s), DataJson (chunk_at records s)).

(** [temparray] is bound to one of the arrays. *)
Definition world_ok (w : world) : Prop := temparray w < length (arrays w).

Definition set_current (w : world) (l : list string) : list (list string) :=
  <[temparray w := l]> (arrays w).

(** ** lib/utils.js *)

(** *** Telemetry records *)

(** One entry of the [commands] array that [sfdx analytics] prints. *)
Record AnalyticsCommand : Type := mkAnalyticsCommand {
  ac_command : string;
  ac_version : string;
  ac_plugin_version : option string;
  ac_runtime : Z;
  ac_status : Z
}.

Record UsageRecord : Type := mkUsageRecord {
  commandName : string;
  toolbeltVersion : string;
  hubOrgId : string;
  usageDate : string;
  totalExecutions : Z;
  totalErrors : Z;
  avgRuntime : Z;
  minRuntime : Z;
  maxRuntime : Z
}.

(** *** What the pipeline prints and does *)

(** The object [_logError] composes. *)
Record errorObject : Type := mkErrorObject {
  eo_message : value;
  eo_status : Z;
  eo_name : string;
  eo_action : option string
}.

Inductive exitDecision : Type :=
| SoftExit                  (* no [process.exit] *)
| ExitNow (code : Z)        (* [process.exit(process.exitCode)] *)
| ExitLater (wait : Z).     (* [setTimeout(() => process.exit(...), wait)] *)

Inductive event : Type :=
| LoggerLog (s : string)
| LoggerLogJson (status : Z) (res : value)
| LoggerLogJsonError (e : errorObject)
| LoggerTable (rows columns : value)
| LoggerAction (message action : string)
| LoggerError (message : string)
| LoggerDebugError (e : errorObject)
| LoggerInfo (s : string)
| SpinnerStart
| SpinnerStop
| SaveGlobalConfig (startTime : Z)
| AnalyticsClear
| LogServerUsages (usages : gmap string UsageRecord)
| LogServerError (e : JsError)
| ExitCalled
| ExitDecided (d : exitDecision).

(** The column description a command's [getColumnData] returns: a plain
    object keyed by table name, or one flat description. *)
Inductive columnData : Type :=
| ColumnsByTable (tables : list (string * value))
| ColumnsFlat (columns : value).

(** A command object.  [execute] acts on the plugin's files and module
    state and does not end the process; what it prints itself is not
    recorded. *)
Record Command : Type := mkCommand {
  validate : option (Context -> result (option Context));
  execute : Context -> M value;
  getPreExecuteMessage : option (value -> string);
  getColumnData : option columnData;
  getEmptyResultMessage : option (string -> option string);
  getHumanSuccessMessage : option (value -> option string);
  getHumanErrorMessage : option (JsError -> option string)
}.

(** The environment variables and the outcomes of the calls into
    salesforce-alm that the reporters, the exit step and the server error
    log make during one invocation. *)
Record Env : Type := mkEnv {
  env_FORCE_SHOW_SPINNER : bool;
  env_CONTENT_TYPE_JSON : bool;   (* SFDX_CONTENT_TYPE || FORCE_CONTENT_TYPE is "JSON" in upper case *)
  env_SOFT_EXIT : bool;
  env_SFDX_LOG_WRITE_WAIT : option Z;
  appConfig_softExit : result (option bool);  (* new Config().getAppConfig().softExit *)
  logger_isError : bool;
  logServerError : result value
}.

(** The clock and the outcomes of the calls that the telemetry flow of
    [_logCommandComplete] makes: the global config file, the hub org, the
    [sfdx analytics] subprocess and the usage submission. *)
Record Telemetry : Type := mkTelemetry {
  now : Z;                                    (* now.getTime() *)
  startOfDay : Z;                             (* startOfDay.getTime() *)
  startOfDay_YYYYMMDD : string;
  getGlobalConfig : result (option Z);        (* contents.startTime *)
  saveGlobalConfig : Z -> result unit;
  hubOrg_getConfig : result string;           (* config.orgId *)
  analytics_status : Z;
  analytics_commands : result (option (list AnalyticsCommand)); (* JSON.parse(stdout).commands *)
  logServerUsages : result unit
}.

(** The state of the process during one invocation. *)
Record process : Type := mkProcess {
  trace : list event;
  exitCode : option Z;     (* process.exitCode *)
  spinner : bool;          (* context.spinner is set and spinning *)
  fs : world
}.

Definition P (A : Type) : Type := Js Z process A.

Definition emit (e : event) : P unit :=
  modify (fun p => mkProcess (trace p ++ [e]) (exitCode p) (spinner p) (fs p)).

Definition set_exitCode (c : option Z) : P unit :=
  modify (fun p => mkProcess (trace p) c (spinner p) (fs p)).

Definition set_spinner (b : bool) : P unit :=
  modify (fun p => mkProcess (trace p) (exitCode p) b (fs p)).

(** Run code of the plugin on the process's files. *)
Definition on_fs {A} (c : M A) : P A :=
  fun p => let (r, w) := c (fs p) in
           (match r with
            | Normal a => Normal a
            | Abrupt e => Abrupt e
            | Terminated code => match code with end
            end,
            mkProcess (trace p) (exitCode p) (spinner p) w).

Definition EOL : string := String (ascii_of_nat 10) EmptyString.

Definition _startSpinner (env : Env) (context : Context) : P unit :=
  if showProgress context && env_FORCE_SHOW_SPINNER env && negb (ctx_json context)
  then set_spinner true >> emit SpinnerStart
  else ret tt.

Definition _stopSpinner : P unit :=
  let* spinning := gets spinner in
  if spinning then emit SpinnerStop >> set_spinner false else ret tt.

Definition _isApiMode (env : Env) (context : Context) : bool :=
  env_CONTENT_TYPE_JSON env || flags_json context.

(** [_.get(obj, key)] for a plain key. *)
Fixpoint fields_get (fields : list (string * value)) (key : string) : value :=
  match fields with
  | [] => VUndefined
  | (k, v) :: rest => if String.eqb k key then v else fields_get rest key
  end.

Definition lodash_get (obj : value) (key : string) : value :=
  match obj with
  | VObj fields => fields_get fields key
  | _ => VUndefined
  end.

(** [_.isEmpty] *)
Definition lodash_isEmpty (v : value) : bool :=
  match v with
  | VArr (_ :: _) => false
  | VObj (_ :: _) => false
  | VStr (String _ _) => false
  | _ => true
  end.

(** [process.exitCode || d] *)
Definition exitCode_or (d : Z) : P Z :=
  gets (fun p => match exitCode p with
                 | Some c => if (c =? 0)%Z then d else c
                 | None => d
                 end).

(** The body of [_.each(columnData, (val, key) => ...)]. *)
Definition logTable (command : Command) (obj : value) (key : string) (val : value)
    : P unit :=
  let rows := lodash_get obj key in
  if lodash_isEmpty rows then
    let* message := lift (getMessage "noResultsFound" None "default") in
    let message' :=
      match getEmptyResultMessage command with
      | Some f => match f key with Some m => m | None => message end
      | None => message
      end in
    emit (LoggerLog message')
  else
    emit (LoggerTable rows val) >> emit (LoggerLog EOL).

Fixpoint logTables (command : Command) (obj : value)
    (tables : list (string * value)) : P unit :=
  match tables with
  | [] => ret tt
  | (key, val) :: rest => logTable command obj key val >> logTables command obj rest
  end.

Definition _logSuccess (env : Env) (command : Command) (context : Context)
    (obj : value) : P unit :=
  if _isApiMode env context then
    let* status := exitCode_or 0 in
    emit (LoggerLogJson status obj)
  else
    match obj with
    | VArr [] =>
        let* message := lift (getMessage "noResultsFound" None "default") in
        emit (LoggerLog message)
    | _ =>
        match getColumnData command with
        | Some (ColumnsByTable tables) => logTables command obj tables
        | Some (ColumnsFlat columns) => emit (LoggerTable obj columns)
        | None =>
            match getHumanSuccessMessage command with
            | Some f =>
                match f obj with
                | Some (String c m) => emit (LoggerLog (String c m))
                | _ => ret tt
                end
            | None => ret tt
            end
        end
    end.

(** The test that decides whether [_logError] adds the action for a wrong
    instance URL. *)
Definition needs_instanceUrl_action (context : Context) (err : JsError) : bool :=
  match ctx_org context with
  | Some org =>
      usingAccessToken org &&
      match err_action err with None => true | Some _ => false end &&
      (includes "Session expired or invalid" (err_message err) ||
       includes "Destination URL not reset" (err_message err))
  | None => false
  end.

Definition set_action (err : JsError) (a : string) : JsError :=
  mkJsError (err_name err) (err_message err) (Some a) (err_rows err) (err_columns err).

(** [_logError] changes [err.action] in place; the error as it is
    afterwards is returned. *)
Definition _logError (env : Env) (command : Command) (context : Context)
    (err : JsError) : P JsError :=
  let* err :=
    (if needs_instanceUrl_action context err then
       let* a := lift (getMessage "invalidInstanceUrlForAccessTokenAction" None "default") in
       ret (set_action err a)
     else ret err) in
  let* status := exitCode_or 1 in
  let error := mkErrorObject
                 (match err_rows err with Some r => r | None => VStr (err_message err) end)
                 status (err_name err) (err_action err) in
  (if _isApiMode env context then
     emit (LoggerLogJsonError error)
   else
     let message :=
       match getHumanErrorMessage command with
       | Some f => match f err with
                   | Some (String c m) => String c m
                   | _ => err_message err
                   end
       | None => err_message err
       end in
     let message := if endsWithDot message then message else message +:+ "." in
     (match eo_action error with
      | Some a => emit (LoggerAction message a)
      | None =>
          match err_rows err, err_columns err with
          | Some r, Some c => emit (LoggerTable r c)
          | _, _ => emit (LoggerError message)
          end
      end) >>
     emit (LoggerDebugError error)) >>
  ret err.

(** *** Telemetry *)

(** [Math.round]: the nearest integer, halves going up. *)
Definition Math_round (x : Q) : Z := Qfloor (x + (1 # 2))%Q.

Definition commandVersion (c : AnalyticsCommand) : string :=
  match ac_plugin_version c with
  | Some (String a pv) => ac_version c +:+ " " +:+ String a pv
  | _ => ac_version c
  end.

Definition commandKey (c : AnalyticsCommand) : string :=
  ac_command c +:+ "-" +:+ commandVersion c.

Definition newUsage (tel : Telemetry) (orgId : string) (c : AnalyticsCommand) : UsageRecord :=
  mkUsageRecord (ac_command c) (commandVersion c) orgId (startOfDay_YYYYMMDD tel)
                0 0 0 (ac_runtime c) (ac_runtime c).

Definition countError (c : AnalyticsCommand) (u : UsageRecord) : UsageRecord :=
  if (ac_status c =? 0)%Z then u
  else mkUsageRecord (commandName u) (toolbeltVersion u) (hubOrgId u) (usageDate u)
                     (totalExecutions u) (totalErrors u + 1) (avgRuntime u)
                     (minRuntime u) (maxRuntime u).

(** Line 296: the new average, from the count as it is at that point. *)
Definition updateAverage (runtime : Z) (u : UsageRecord) : UsageRecord :=
  mkUsageRecord (commandName u) (toolbeltVersion u) (hubOrgId u) (usageDate u)
                (totalExecutions u) (totalErrors u)
                (Math_round ((inject_Z runtime
                              + inject_Z (avgRuntime u) * inject_Z (totalExecutions u))
                             / inject_Z (totalExecutions u + 1))%Q)
                (minRuntime u) (maxRuntime u).

(** Line 298: [totalExecutions++]. *)
Definition countExecution (u : UsageRecord) : UsageRecord :=
  mkUsageRecord (commandName u) (toolbeltVersion u) (hubOrgId u) (usageDate u)
                (totalExecutions u + 1) (totalErrors u) (avgRuntime u)
                (minRuntime u) (maxRuntime u).

Definition updateMinMax (runtime : Z) (u : UsageRecord) : UsageRecord :=
  if (maxRuntime u <? runtime)%Z then
    mkUsageRecord (commandName u) (toolbeltVersion u) (hubOrgId u) (usageDate u)
                  (totalExecutions u) (totalErrors u) (avgRuntime u)
                  (minRuntime u) runtime
  else if (runtime <? minRuntime u)%Z then
    mkUsageRecord (commandName u) (toolbeltVersion u) (hubOrgId u) (usageDate u)
                  (totalExecutions u) (totalErrors u) (avgRuntime u)
                  runtime (maxRuntime u)
  else u.

(** The body of [commands.forEach(command => ...)] in [calcUsage]. *)
Definition recordCommand (tel : Telemetry) (orgId : string)
    (usages : gmap string UsageRecord) (c : AnalyticsCommand)
    : gmap string UsageRecord :=
  let key := commandKey c in
  let runtime := ac_runtime c in
  let u := match usages !! key with
           | Some u => u
           | None => newUsage tel orgId c
           end in
  <[key := updateMinMax runtime
             (countExecution (updateAverage runtime (countError c u)))]> usages.

Definition calcUsage (tel : Telemetry) (orgId : string) : P unit :=
  if (analytics_status tel =? 1)%Z then ret tt
  else
    match analytics_commands tel with
    | Throw _ => ret tt
    | Ok None => throw (typeError "Cannot read property 'forEach' of undefined")
    | Ok (Some commands) =>
        emit (LogServerUsages (fold_left (recordCommand tel orgId) commands ∅)) >>
        lift (logServerUsages tel)
    end.

Definition dayInMilliseconds : Z := 1000 * 60 * 60 * 24.

(** [srcDevUtil.saveGlobalConfig(fileName, contents)] *)
Definition save_startTime (tel : Telemetry) (startTime : Z) : P unit :=
  emit (SaveGlobalConfig startTime) >> lift (saveGlobalConfig tel startTime).

(** The promise is created, and so the save is started, whether or not it
    is the one that is returned: its outcome comes back as a value. *)
Definition started {A} (p : P A) : P (result A) :=
  fun s => match p s with
           | (Normal a, s') => (Normal (Ok a), s')
           | (Abrupt e, s') => (Normal (Throw e), s')
           | (Terminated code, s') => (Terminated code, s')
           end.

Definition _logCommandComplete (tel : Telemetry) (cmdName : string) : P unit :=
  emit (LoggerInfo ("DONE! Completed '" +:+ cmdName +:+ "'")) >>
  (lift (getGlobalConfig tel)
   |> then_ (fun contents =>
        let absent := match contents with
                      | None => true
                      | Some t => (t =? 0)%Z
                      end in
        let startTime := match contents with
                         | Some t => if (t =? 0)%Z then startOfDay tel else t
                         | None => startOfDay tel
                         end in
        let* retPromise :=
          (if absent then started (save_startTime tel startTime)
           else ret (Ok tt)) in
        if (dayInMilliseconds <=? now tel - startTime)%Z then
          lift (hubOrg_getConfig tel)
          |> then_ (fun orgId => calcUsage tel orgId)
          |> then_ (fun _ =>
               emit AnalyticsClear >> save_startTime tel (startOfDay tel))
        else lift retPromise)
   |> catch_ (fun _ => ret tt)).

(** *** Exit *)

Definition tolerated_config_error (name : string) : bool :=
  String.eqb name "InvalidProjectWorkspace" ||
  String.eqb name "SyntaxError" ||
  String.eqb name "InvalidJsonCasing".

(** [cmdContext.softExit || process.env.SOFT_EXIT ||
    new Config().getAppConfig().softExit] inside its [try]; [Ok None] is
    [undefined]. *)
Definition resolve_softExit (env : Env) (context : Context) : result (option bool) :=
  if softExit context then Ok (Some true)
  else if env_SOFT_EXIT env then Ok (Some true)
  else match appConfig_softExit env with
       | Ok v => Ok v
       | Throw e => if tolerated_config_error (err_name e) then Ok None else Throw e
       end.

(** [process.exit(code)] *)
Definition process_exit {A} (code : Z) : P A := fun p => (Terminated code, p).

Definition _exit (env : Env) (context : Context) : P unit :=
  emit ExitCalled >>
  let* soft := lift (resolve_softExit env context) in
  match soft with
  | Some _ => emit (ExitDecided SoftExit)
  | None =>
      if logger_isError env then
        let* code := gets (fun p => default 0%Z (exitCode p)) in
        emit (ExitDecided (ExitNow code)) >> process_exit code
      else
        emit (ExitDecided (ExitLater (default 1000%Z (env_SFDX_LOG_WRITE_WAIT env))))
  end.

(** *** The command invoker *)

Definition NS : string := "force".

(** The name of the command for the logs.  Command objects are object
    literals, whose [constructor.name] is [Object]. *)
Definition _determineCommandName (context : Context) : string :=
  match ctx_cmd context with
  | Some (String c n) => String c n
  | _ =>
      match ctx_command context with
      | Some (topic, command) => NS +:+ ":" +:+ topic +:+ ":" +:+ command
      | None => "Object"
      end
  end.


(** The callbacks of the promise chain in [_execCommand], in order. *)

(** [command.validate(context)] when the command has one, else the
    context itself. *)
Definition validating (command : Command) (context : Context)
    : result (option Context) :=
  match validate command with
  | Some v => v context
  | None => Ok (Some context)
  end.

(** The org configuration, fetched only for a command that requires a
    workspace. *)
Definition orgConfigWait (context : Context) (fixedContext : option Context)
    : result value :=
  if negb (requiresWorkspace context) then Ok VUndefined
  else match ctx_org context with
       | Some org =>
           if org_isFunction org then
             match fixedContext with
             | Some fixed =>
                 if negb (ctx_json fixed) then org_getConfig org
                 else Ok VUndefined
             | None => Throw (typeError "Cannot read property 'json' of undefined")
             end
           else Ok VUndefined
       | None => Ok VUndefined
       end.

Definition preExecuteMessage (command : Command) (orgData : value) : P unit :=
  match orgData, getPreExecuteMessage command with
  | VUndefined, _ | VNull, _ | _, None => ret tt
  | _, Some f => emit (LoggerLog (f orgData +:+ EOL))
  end.

(** "The command completed successfully so display some results." *)
Definition succeeded (env : Env) (tel : Telemetry) (command : Command) (context : Context)
    (cmdName : string) (obj : value) : P value :=
  _stopSpinner >>
  _logSuccess env command context obj >>
  (_logCommandComplete tel cmdName |> then_ (fun _ => ret obj)).

(** "The command had issues so display some error information." *)
Definition failed (env : Env) (tel : Telemetry) (command : Command) (context : Context)
    (cmdName : string) (err : JsError) : P value :=
  _stopSpinner >>
  let* err := _logError env command context err in
  (_logCommandComplete tel cmdName
   |> then_ (fun _ => emit (LogServerError err) >> lift (logServerError env))
   |> finally_ (set_exitCode (Some 1%Z) >> _exit env context)).

(** [_execCommand].  Before the chain it sets the log level, writes a
    debug line and clears [process.exitCode]; only the last of these is
    state that the pipeline reads. *)
Definition _execCommand (env : Env) (tel : Telemetry) (command : Command) (context : Context)
    : P value :=
  let cmdName := _determineCommandName context in
  set_exitCode None >>
  (ret tt
   |> then_ (fun _ => lift (validating command context))
   |> then_ (fun fixedContext =>
        let* orgData := lift (orgConfigWait context fixedContext) in
        ret (fixedContext, orgData))
   |> then_ (fun fo => preExecuteMessage command (snd fo) >> ret (fst fo))
   |> then_ (fun fixedContext => _startSpinner env context >> ret fixedContext)
   |> then_ (fun fixedContext =>
        on_fs (execute command (default context fixedContext)))
   |> then_ (succeeded env tel command context cmdName)
   |> then_ (fun obj => _exit env context >> ret obj)
   |> catch_ (failed env tel command context cmdName)
   |> finally_ _stopSpinner).

(** *** commands/data/data_split.js *)

(** The command object that [run] hands to [utils.executeCommand]. *)
Definition split_command : Command :=
  mkCommand None
            (fun execContext => split execContext >> ret (VBool true))
            None None None
            (Some (fun _ => Some ""))
            (Some (fun _ => Some "")).

Definition run (env : Env) (tel : Telemetry) (context : Context) : P value :=
  _execCommand env tel split_command context.

(** *** Reading a trace *)

Definition is_exit_call (e : event) : bool :=
  match e with ExitCalled => true | _ => false end.

Definition is_exit_decision (e : event) : bool :=
  match e with ExitDecided _ => true | _ => false end.

(** How many times [_exit] was entered, and how many times it got to its
    decision between a soft and a hard exit. *)
Definition exit_calls (t : list event) : nat := length (List.filter is_exit_call t).
Definition exit_decisions (t : list event) : nat :=
  length (List.filter is_exit_decision t).

(** What the user sees: everything but the telemetry bookkeeping. *)
Definition user_visible (e : event) : bool :=
  match e with
  | LoggerInfo _ | SaveGlobalConfig _ | AnalyticsClear | LogServerUsages _ => false
  | _ => true
  end.

(** The two exit counters of a process. *)
Definition exits (p : process) : nat * nat :=
  (exit_calls (trace p), exit_decisions (trace p)).


(** The part of a trace that the user sees. *)
Definition visible (t : list event) : list event := List.filter user_visible t.

(** Whether the session is one that uses an access token. *)
Definition token_session (context : Context) : bool :=
  match ctx_org context with
  | Some org => usingAccessToken org
  | None => false
  end.

Definition initial_process (w : world) : process := mkProcess [] None false w.


(** The error of a lookup of [label] in the default bundle when the bundle
    has neither that label nor [UndefinedLocalizationLabel]. *)
Definition lookup_failure (label : string) : JsError :=
  newError (util_format None ["default"; label; "en_US"]).

(** A stage is confined to the events [ok] when it does not end the
    process and only adds events that satisfy [ok] to the trace; with
    [keep] it also leaves the exit code, the spinner and the files as
    they are. *)
Definition confined (ok : event -> bool) (keep : bool) {A} (c : P A) : Prop :=
  forall p,
    match c p with
    | (Terminated _, _) => False
    | (_, p') =>
        (exists t, trace p' = trace p ++ t /\ forallb ok t = true) /\
        (keep = true ->
         exitCode p' = exitCode p /\ spinner p' = spinner p /\ fs p' = fs p)
    end.

Definition no_exit_event (e : event) : bool :=
  negb (is_exit_call e || is_exit_decision e).

Definition telemetry_event (e : event) : bool := negb (user_visible e).

(** Two states of the process that agree on the exit code, the spinner,
    the files and everything the user sees. *)
Definition same_outcome (p1 p2 : process) : Prop :=
  exitCode p1 = exitCode p2 /\
  spinner p1 = spinner p2 /\
  fs p1 = fs p2 /\
  visible (trace p1) = visible (trace p2).

(** Two stages that, from states with the same outcome, end the same way
    and in states with the same outcome. *)
Definition related {A} (c1 c2 : P A) : Prop :=
  forall p1 p2,
    same_outcome p1 p2 ->
    fst (c1 p1) = fst (c2 p2) /\ same_outcome (snd (c1 p1)) (snd (c2 p2)).

(** *** Sample inputs *)

Definition sample_records (n : nat) : list value :=
  (fun k => VNum (Z.of_nat k)) <$> seq 0 n.

(** A context as the CLI builds it for [sfdx data:split -f plan.json]. *)
Definition plan_context : Context :=
  mkContext "plan.json" false false None None
            (Some ("data", "split")) false false false.

(** One plan entry that lists a 1-record file and then a 201-record file. *)
Definition mixed_world : world :=
  initial_world "/w"
    (list_to_map [("/w/plan.json", PlanJson [["small.json"; "big.json"]]);
                  ("/w/small.json", DataJson (sample_records 1));
                  ("/w/big.json", DataJson (sample_records 201))]).

(** Two plan entries, each with one 1-record file. *)
Definition two_entry_world : world :=
  initial_world "/w"
    (list_to_map [("/w/plan.json", PlanJson [["a.json"]; ["b.json"]]);
                  ("/w/a.json", DataJson (sample_records 1));
                  ("/w/b.json", DataJson (sample_records 1))]).

(** No manifest at the resolved path. *)
Definition empty_world : world := initial_world "/w" ∅.

(** [SOFT_EXIT] set and the server error log succeeding. *)
Definition quiet_env : Env :=
  mkEnv false false true None (Ok None) true (Ok VUndefined).


(** A usage file of today and every call of the telemetry flow
    succeeding. *)
Definition quiet_telemetry : Telemetry :=
  mkTelemetry 1496300000000 1496275200000 "20170601"
              (Ok (Some 1496275200000%Z)) (fun _ => Ok tt) (Ok "00D")
              0 (Ok (Some [])) (Ok tt).

(** A session that uses an access token. *)
Definition token_context : Context :=
  mkContext "plan.json" false false
            (Some (mkOrg true false (Ok VUndefined))) None
            (Some ("data", "split")) false false false.

(** *** Reading aids for the further properties *)

(** [s.includes(c)] for one character. *)
Fixpoint contains_char (c : ascii) (s : string) : bool :=
  match s with
  | EmptyString => false
  | String a rest => Ascii.eqb a c || contains_char c rest
  end.

(** A file reference that [require] reads as a data file. *)
Definition data_file (d : gmap string contents) (datafolder f : string) : Prop :=
  exists records, d !! path_join datafolder f = Some (DataJson records).

(** A data file of at most 200 records. *)
Definition small_file (d : gmap string contents) (datafolder f : string) : Prop :=
  exists records,
    d !! path_join datafolder f = Some (DataJson records) /\ length records <= 200.

(** The names the chunks of [f] get when it has [n] records. *)
Definition chunk_names (f : string) (n : nat) : list string :=
  chunk_fileName f <$> chunk_starts (chunks_needed n 0) 0.

(** What [temparray] holds after the files of one entry, from what it
    held before: a small file is appended, an oversized one replaces
    everything by its chunk names. *)
Fixpoint collected (d : gmap string contents) (datafolder : string)
    (acc files : list string) : list string :=
  match files with
  | [] => acc
  | f :: rest =>
      match d !! path_join datafolder f with
      | Some (DataJson records) =>
          if length records <=? 200
          then collected d datafolder (acc ++ [f]) rest
          else collected d datafolder (chunk_names f (length records)) rest
      | _ => acc
      end
  end.

(** The writes a piece of code added, all of them chunk files. *)
Definition only_chunks_written (w w' : world) : Prop :=
  exists ws,
    written w' = written w ++ ws /\
    Forall (fun nc => exists records, snd nc = DataJson records) ws.

(** A stage preserves a property of the process state when it leads from
    a state with the property to a state with it, however it ends. *)
Definition preserves (I : process -> Prop) {A} (c : P A) : Prop :=
  forall p, I p -> I (snd (c p)).

(** What a property of the state may be indifferent to: one more event in
    the trace, the spinner being stopped or started, the exit code, the
    files. *)
Definition trace_monotone (I : process -> Prop) : Prop :=
  forall p e, I p -> I (mkProcess (trace p ++ [e]) (exitCode p) (spinner p) (fs p)).

Definition stop_blind (I : process -> Prop) : Prop :=
  forall p, I p -> I (mkProcess (trace p) (exitCode p) false (fs p)).

Definition start_blind (I : process -> Prop) : Prop :=
  forall p, I p -> I (mkProcess (trace p) (exitCode p) true (fs p)).

Definition exitCode_blind (I : process -> Prop) : Prop :=
  forall p c, I p -> I (mkProcess (trace p) c (spinner p) (fs p)).

Definition fs_blind (I : process -> Prop) : Prop :=
  forall p w, I p -> I (mkProcess (trace p) (exitCode p) (spinner p) w).

(** The promise chain of [_execCommand] up to and including the success
    callback. *)
Definition success_chain (env : Env) (tel : Telemetry) (command : Command)
    (context : Context) : P value :=
  ret tt
  |> then_ (fun _ => lift (validating command context))
  |> then_ (fun fixedContext =>
       let* orgData := lift (orgConfigWait context fixedContext) in
       ret (fixedContext, orgData))
  |> then_ (fun fo => preExecuteMessage command (snd fo) >> ret (fst fo))
  |> then_ (fun fixedContext => _startSpinner env context >> ret fixedContext)
  |> then_ (fun fixedContext =>
       on_fs (execute command (default context fixedContext)))
  |> then_ (succeeded env tel command context (_determineCommandName context)).

(** The usage records [calcUsage] sends for a list of commands. *)
Definition usages_of (tel : Telemetry) (orgId : string)
    (commands : list AnalyticsCommand) : gmap string UsageRecord :=
  fold_left (recordCommand tel orgId) commands ∅.

(** The commands recorded under the key [k], and those of them that
    failed. *)
Definition under_key (k : string) (commands : list AnalyticsCommand)
    : list AnalyticsCommand :=
  List.filter (fun c => String.eqb (commandKey c) k) commands.

Definition failures (commands : list AnalyticsCommand) : list AnalyticsCommand :=
  List.filter (fun c => negb (ac_status c =? 0)%Z) commands.

(** The line that [_logCommandComplete] writes to the log. *)
Definition done_line (cmdName : string) : event :=
  LoggerInfo ("DONE! Completed '" +:+ cmdName +:+ "'").

(** A process state with more events in its trace. *)
Definition with_events (p : process) (t : list event) : process :=
  mkProcess (trace p ++ t) (exitCode p) (spinner p) (fs p).

(** The counts a map of usage records holds for a key; a key that is not
    in the map counts as zero. *)
Definition executions_in (usages : gmap string UsageRecord) (k : string) : Z :=
  match usages !! k with
  | Some u => totalExecutions u
  | None => 0
  end.

Definition errors_in (usages : gmap string UsageRecord) (k : string) : Z :=
  match usages !! k with
  | Some u => totalErrors u
  | None => 0
  end.


(** *** Further sample inputs *)


(** A command whose [validate] throws. *)
Definition rejecting_command : Command :=
  mkCommand (Some (fun _ => Throw (newError "Unknown flag")))
            (fun _ => ret VUndefined)
            None None None None None.

(** No soft exit requested anywhere and the log level at error. *)
Definition hard_exit_env : Env :=
  mkEnv false false false None (Ok None) true (Ok VUndefined).


(** No usage file yet, and saving one fails. *)
Definition first_run_telemetry : Telemetry :=
  mkTelemetry 1496300000000 1496275200000 "20170601"
              (Ok None) (fun _ => Throw (newError "EACCES")) (Ok "00D")
              0 (Ok (Some [])) (Ok tt).

Definition sample_commands : list AnalyticsCommand :=
  [mkAnalyticsCommand "force:data:split" "41.2.0" None 130 0;
   mkAnalyticsCommand "force:data:split" "41.2.0" None 90 1].

(** A usage file older than a day and a server that rejects the usage
    records. *)
Definition stale_telemetry : Telemetry :=
  mkTelemetry 1496300000000 1496275200000 "20170601"
              (Ok (Some 1496000000000%Z)) (fun _ => Ok tt) (Ok "00D")
              0 (Ok (Some sample_commands)) (Throw (newError "ECONNREFUSED")).

(** A usage file older than a day and [sfdx analytics] exiting with
    status 1. *)
Definition skipping_telemetry : Telemetry :=
  mkTelemetry 1496300000000 1496275200000 "20170601"
              (Ok (Some 1496000000000%Z)) (fun _ => Ok tt) (Ok "00D")
              1 (Ok (Some sample_commands)) (Ok tt).

(** [process.exitCode] is unset or 1. *)
Definition exit_code_unset_or_one (p : process) : Prop :=
  exitCode p = None \/ exitCode p = Some 1%Z.

(** * Properties *)

(** ** Strings *)







(** ** Chunking *)

Lemma chunks_needed_done j i : j <= i -> chunks_needed j i = 0.
Proof.
  intros H. unfold chunks_needed.
  replace (j - i) with 0 by lia. reflexivity.
Qed.

Lemma chunks_needed_step j i :
  i < j -> chunks_needed j i = S (chunks_needed j (i + chunk)).
Proof.
  intros H. unfold chunks_needed, chunk.
  destruct (le_lt_dec (i + 200) j) as [Hfull | Hlast].
  - replace (j - i + 199) with (j - (i + 200) + 199 + 1 * 200) by lia.
    rewrite Nat.div_add by lia. lia.
  - replace (j - (i + 200)) with 0 by lia.
    rewrite (Nat.div_small (0 + 199)) by lia.
    symmetry. apply (Nat.div_unique _ 200 1 (j - i - 1)); lia.
Qed.

Lemma chunk_starts_cons n i :
  chunk_starts (S n) i = i :: chunk_starts n (i + chunk).
Proof.
  unfold chunk_starts, chunk. cbn [seq fmap list_fmap].
  rewrite <- fmap_S_seq, <- list_fmap_compose. f_equal; [lia |].
  apply list_fmap_ext. intros _ k _. cbn. lia.
Qed.






(** ** The module variable [temparray] *)

Lemma current_array_lookup w :
  world_ok w -> arrays w !! temparray w = Some (current_array w).
Proof.
  intros H. unfold current_array.
  destruct (lookup_lt_is_Some_2 (arrays w) (temparray w) H) as [l Hl].
  rewrite Hl. reflexivity.
Qed.

Lemma set_current_same w : world_ok w -> set_current w (current_array w) = arrays w.
Proof.
  intros H. unfold set_current.
  apply list_insert_id, current_array_lookup, H.
Qed.

Lemma temparray_push_run x w :
  temparray_push x w =
    (Normal tt,
     mkWorld (cwd w) (disk w) (set_current w (current_array w ++ [x]))
             (temparray w) (written w)).
Proof. reflexivity. Qed.

Lemma world_ok_push w l ws :
  world_ok w ->
  world_ok (mkWorld (cwd w) (disk w) (set_current w l) (temparray w) ws).
Proof. unfold world_ok, set_current. cbn. rewrite length_insert. auto. Qed.

Lemma current_array_push w l ws :
  world_ok w ->
  current_array (mkWorld (cwd w) (disk w) (set_current w l) (temparray w) ws) = l.
Proof.
  intros H. unfold current_array, set_current. cbn.
  rewrite list_lookup_insert_eq by exact H. reflexivity.
Qed.

Lemma world_ok_initial dir d : world_ok (initial_world dir d).
Proof. unfold world_ok. cbn. lia. Qed.

(** ** [_breakupDataFile] *)

(** With enough fuel the loop writes the chunks that start at
    [i, i + 200, ...] below [records.length], pushes their names, and ends
    normally. *)
Lemma breakup_loop_run datafolder f records :
  forall fuel i w,
    length records <= i + fuel ->
    world_ok w ->
    breakup_loop fuel datafolder f records i w =
      (Normal tt,
       mkWorld (cwd w) (disk w)
               (set_current w
                  (current_array w ++
                   (chunk_fileName f <$>
                    chunk_starts (chunks_needed (length records) i) i)))
               (temparray w)
               (written w ++
                (chunk_write datafolder f records <$>
                 chunk_starts (chunks_needed (length records) i) i))).
Proof.
  assert (forall w, world_ok w ->
            (Normal tt : completion Empty_set unit, w) =
            (Normal tt,
             mkWorld (cwd w) (disk w) (set_current w (current_array w ++ []))
                     (temparray w) (written w ++ []))) as Hstop.
  { intros w Hw. rewrite !app_nil_r, set_current_same by exact Hw.
    destruct w; reflexivity. }
  induction fuel as [| fuel IH]; intros i w Hfuel Hw.
  - rewrite chunks_needed_done by lia. cbn. apply Hstop, Hw.
  - cbn [breakup_loop]. destruct (Nat.ltb_spec i (length records)) as [Hlt | Hge].
    + rewrite chunks_needed_step, chunk_starts_cons by exact Hlt.
      destruct w as [c d a t ws]. unfold world_ok in Hw. cbn in Hw.
      unfold bind at 1. unfold _writeDataFile, _writeFile, bind, modify at 1.
      rewrite temparray_push_run. cbn [cwd disk arrays temparray written].
      rewrite IH;
        [| unfold chunk; lia
         | unfold world_ok, set_current; cbn; rewrite length_insert; exact Hw].
      unfold set_current, current_array. cbn [cwd disk arrays temparray written].
      rewrite list_lookup_insert_eq by exact Hw.
      rewrite list_insert_insert_eq.
      cbn [fmap list_fmap from_option id]. rewrite <- !app_assoc. reflexivity.
    + rewrite chunks_needed_done by lia. cbn. apply Hstop, Hw.
Qed.




(** ** [_splitFiles] *)

(** Files of at most 200 records are pushed under their own names and
    nothing is written. *)
Lemma forEach_files_small datafolder files :
  forall w,
    world_ok w ->
    Forall (fun f => exists records,
              disk w !! path_join datafolder f = Some (DataJson records) /\
              length records <= 200) files ->
    forEach_files datafolder files w =
      (Normal tt,
       mkWorld (cwd w) (disk w) (set_current w (current_array w ++ files))
               (temparray w) (written w)).
Proof.
  induction files as [| f rest IH]; intros w Hw Hall.
  - cbn. rewrite app_nil_r, set_current_same by exact Hw.
    destruct w; reflexivity.
  - apply Forall_cons in Hall as [(records & Hfile & Hlen) Hrest].
    cbn [forEach_files]. unfold bind at 1.
    unfold _breakupDataFile, require_records.
    unfold bind at 1. unfold bind at 1. unfold gets at 1. rewrite Hfile.
    unfold ret at 1.
    destruct (Nat.leb_spec (length records) 200) as [_ | Hbig]; [| lia].
    rewrite temparray_push_run.
    rewrite IH; [| apply world_ok_push, Hw | exact Hrest].
    cbn [cwd disk arrays temparray written].
    rewrite current_array_push by exact Hw.
    unfold set_current at 1. cbn [arrays temparray].
    unfold set_current at 1. rewrite list_insert_insert_eq.
    rewrite <- app_assoc. reflexivity.
Qed.

(** With a single plan entry of small files, and [temparray] still empty,
    the manifest is written back with the file list it had. *)
Lemma split_single_small_entry context w files :
  let filepath := path_resolve (cwd w) (flags_dataplan context) in
  let datafolder := path_dirname filepath in
  world_ok w ->
  current_array w = [] ->
  disk w !! filepath = Some (PlanJson [files]) ->
  Forall (fun f => exists records,
            disk w !! path_join datafolder f = Some (DataJson records) /\
            length records <= 200) files ->
  exists w',
    split context w = (Normal tt, w') /\
    disk w' = disk w /\
    written w' = written w ++ [(filepath, PlanJson [files])].
Proof.
  intros filepath datafolder Hw Hcur Hplan Hall.
  unfold split, _splitFiles, _validateFile, require_plan.
  unfold bind at 1. unfold gets at 1. fold filepath. fold datafolder.
  unfold bind at 1. unfold gets at 1. rewrite Hplan. cbn [negb].
  unfold bind at 1. unfold bind at 1. unfold gets at 1. rewrite Hplan.
  unfold ret at 1. cbn [map forEach_plan].
  unfold bind at 1. unfold bind at 1. unfold bind at 1. unfold gets at 1.
  cbn [deref]. rewrite forEach_files_small by assumption.
  rewrite Hcur. cbn.
  unfold set_current. cbn. rewrite list_lookup_insert_eq by exact Hw.
  eexists. split; [reflexivity |]. auto.
Qed.

(** C2 (failing input): one plan entry lists a 1-record file and then a
    201-record file.  The split ends normally and writes the two chunks of
    the big file, but the manifest it leaves names only those two: the
    small file, which the entry still needs, is gone from its list. *)
Theorem split_drops_small_file :
  fst (split plan_context mixed_world) = Normal tt /\
  fst <$> written (snd (split plan_context mixed_world))
    = ["/w/big0.json"; "/w/big200.json"; "/w/plan.json"] /\
  manifest_after "/w/plan.json" (snd (split plan_context mixed_world))
    = Some (PlanJson [["big0.json"; "big200.json"]]).
Proof. vm_compute. repeat split; reflexivity. Qed.

(** C4 (failing input): two plan entries with one small file each.  No
    data file is written, but the manifest is rewritten with both names in
    both entries. *)
Theorem split_again_changes_manifest :
  disk two_entry_world !! "/w/plan.json" = Some (PlanJson [["a.json"]; ["b.json"]]) /\
  fst (split plan_context two_entry_world) = Normal tt /\
  fst <$> written (snd (split plan_context two_entry_world))
    = ["/w/plan.json"; "/w/plan.json"] /\
  manifest_after "/w/plan.json" (snd (split plan_context two_entry_world))
    = Some (PlanJson [["a.json"; "b.json"]; ["a.json"; "b.json"]]).
Proof. vm_compute. repeat split; reflexivity. Qed.

Lemma getMessage_unknown_label label :
  table_get messages_default label = None ->
  getMessage label None "default"
    = Throw (newError (util_format None ["default"; label; "en_US"])).
Proof.
  intros H. unfold getMessage.
  change (messages "default") with (Some messages_default).
  cbv beta iota. rewrite H.
  change (table_get messages_default "UndefinedLocalizationLabel")
    with (@None string).
  reflexivity.
Qed.

Lemma util_format_undefined_neq args s :
  String.prefix "undefined" s = false -> util_format None args <> s.
Proof.
  intros Hs Heq. subst s. unfold util_format in Hs.
  destruct (map util_inspect args) as [| a l]; cbn in Hs; discriminate.
Qed.

Lemma split_missing_manifest context w :
  disk w !! path_resolve (cwd w) (flags_dataplan context) = None ->
  split context w = (Abrupt (lookup_failure "Could not find specified file"), w).
Proof.
  intros H. unfold split, _splitFiles, _validateFile.
  unfold bind at 1. unfold gets at 1. unfold bind at 1. unfold gets at 1.
  rewrite H. reflexivity.
Qed.

(** ** The reporters *)

(** C9 (failing input): in human mode, for an empty array, [_logSuccess]
    asks the catalog for [noResultsFound]; the default bundle has no such
    label, so the reporter throws and prints nothing. *)
Theorem logSuccess_empty_array_throws env command context p :
  _isApiMode env context = false ->
  _logSuccess env command context (VArr []) p
    = (Abrupt (lookup_failure "noResultsFound"), p).
Proof.
  intros Hhuman. unfold _logSuccess. rewrite Hhuman.
  unfold bind. rewrite getMessage_unknown_label by reflexivity. reflexivity.
Qed.

(** C8 (failing input): for an error without action whose message matches
    and a session that uses an access token, [_logError] asks the catalog
    for [invalidInstanceUrlForAccessTokenAction]; the default bundle has no
    such label, so the reporter throws before it attaches or prints
    anything. *)
Theorem logError_action_lookup_throws env command context err p :
  needs_instanceUrl_action context err = true ->
  _logError env command context err p
    = (Abrupt (lookup_failure "invalidInstanceUrlForAccessTokenAction"), p).
Proof.
  intros Hneeds. unfold _logError. rewrite Hneeds.
  unfold bind. rewrite getMessage_unknown_label by reflexivity. reflexivity.
Qed.

(** The three conditions of the claim are the ones the reporter tests. *)
Lemma needs_instanceUrl_action_iff context err :
  needs_instanceUrl_action context err = true <->
  (exists org, ctx_org context = Some org /\ usingAccessToken org = true) /\
  err_action err = None /\
  (includes "Session expired or invalid" (err_message err) = true \/
   includes "Destination URL not reset" (err_message err) = true).
Proof.
  unfold needs_instanceUrl_action.
  destruct (ctx_org context) as [org |].
  - rewrite !andb_true_iff, orb_true_iff.
    destruct (err_action err); split.
    + intros [[_ H] _]. discriminate.
    + intros (_ & H & _). discriminate.
    + intros [[Ht _] Hm]. eauto.
    + intros ([org' [[= <-] Ht]] & _ & Hm). auto.
  - split; [discriminate |]. intros ([org [H _]] & _). discriminate.
Qed.

Lemma logError_without_token env command context err p :
  needs_instanceUrl_action context err = false ->
  exists p', _logError env command context err p = (Normal err, p') /\
    exitCode p' = exitCode p /\ spinner p' = spinner p /\ fs p' = fs p.
Proof.
  intros Hneeds. unfold _logError. rewrite Hneeds.
  unfold bind, ret, exitCode_or, gets.
  destruct (_isApiMode env context).
  - eexists. split; reflexivity || (repeat split).
  - destruct (eo_action _) eqn:Ha; cbn.
    + eexists. split; [reflexivity | repeat split].
    + destruct (err_rows err), (err_columns err); cbn;
        (eexists; split; [reflexivity | repeat split]).
Qed.

(** ** Confinement of the stages *)

Section Confinement.

Variable ok : event -> bool.
Variable keep : bool.

Lemma confined_ret {A} (a : A) : confined ok keep (ret a).
Proof.
  intros p. cbn. split; [exists []; rewrite app_nil_r |]; auto.
Qed.

Lemma confined_throw {A} e : confined ok keep (throw e : P A).
Proof.
  intros p. cbn. split; [exists []; rewrite app_nil_r |]; auto.
Qed.

Lemma confined_lift {A} (r : result A) : confined ok keep (lift r).
Proof. destruct r; [apply confined_ret | apply confined_throw]. Qed.

Lemma confined_gets {A} (f : process -> A) : confined ok keep (gets f).
Proof.
  intros p. cbn. split; [exists []; rewrite app_nil_r |]; auto.
Qed.

Lemma confined_emit e : ok e = true -> confined ok keep (emit e).
Proof.
  intros He p. cbn. split; [| auto].
  exists [e]. cbn. rewrite He. auto.
Qed.

Lemma confined_bind {A B} (c : P A) (k : A -> P B) :
  confined ok keep c -> (forall a, confined ok keep (k a)) ->
  confined ok keep (bind c k).
Proof.
  intros Hc Hk p. unfold bind. specialize (Hc p).
  destruct (c p) as [[a | e | code] p1]; [| exact Hc | exact Hc].
  destruct Hc as [(t1 & Ht1 & Hok1) Hkeep1].
  specialize (Hk a p1). destruct (k a p1) as [[b | e | code] p2];
    [| | exact Hk];
    destruct Hk as [(t2 & Ht2 & Hok2) Hkeep2];
    (split;
     [ exists (t1 ++ t2); rewrite Ht2, Ht1, app_assoc, forallb_app, Hok1, Hok2; auto
     | intros Hk; destruct (Hkeep1 Hk) as (? & ? & ?);
       destruct (Hkeep2 Hk) as (? & ? & ?); repeat split; congruence ]).
Qed.

Lemma confined_then {A B} (f : A -> P B) (c : P A) :
  confined ok keep c -> (forall a, confined ok keep (f a)) ->
  confined ok keep (then_ f c).
Proof. apply confined_bind. Qed.

Lemma confined_catch {A} (h : JsError -> P A) (c : P A) :
  confined ok keep c -> (forall e, confined ok keep (h e)) ->
  confined ok keep (catch_ h c).
Proof.
  intros Hc Hh p. unfold catch_. specialize (Hc p).
  destruct (c p) as [[a | e | code] p1]; [exact Hc | | exact Hc].
  destruct Hc as [(t1 & Ht1 & Hok1) Hkeep1].
  specialize (Hh e p1). destruct (h e p1) as [[b | e' | code] p2];
    [| | exact Hh];
    destruct Hh as [(t2 & Ht2 & Hok2) Hkeep2];
    (split;
     [ exists (t1 ++ t2); rewrite Ht2, Ht1, app_assoc, forallb_app, Hok1, Hok2; auto
     | intros Hk; destruct (Hkeep1 Hk) as (? & ? & ?);
       destruct (Hkeep2 Hk) as (? & ? & ?); repeat split; congruence ]).
Qed.

Lemma confined_finally {A B} (g : P B) (c : P A) :
  confined ok keep c -> confined ok keep g -> confined ok keep (finally_ g c).
Proof.
  intros Hc Hg p. unfold finally_. specialize (Hc p).
  destruct (c p) as [[a | e | code] p1]; [| | exact Hc];
    destruct Hc as [(t1 & Ht1 & Hok1) Hkeep1];
    specialize (Hg p1); destruct (g p1) as [[b | e' | code] p2];
    try exact Hg;
    destruct Hg as [(t2 & Ht2 & Hok2) Hkeep2];
    (split;
     [ exists (t1 ++ t2); rewrite Ht2, Ht1, app_assoc, forallb_app, Hok1, Hok2; auto
     | intros Hk; destruct (Hkeep1 Hk) as (? & ? & ?);
       destruct (Hkeep2 Hk) as (? & ? & ?); repeat split; congruence ]).
Qed.

Lemma confined_started {A} (c : P A) :
  confined ok keep c -> confined ok keep (started c).
Proof.
  intros Hc p. unfold started. specialize (Hc p).
  destruct (c p) as [[a | e | code] p1]; exact Hc.
Qed.

End Confinement.

Lemma confined_weaken (ok ok' : event -> bool) (keep keep' : bool) {A} (c : P A) :
  (forall e, ok e = true -> ok' e = true) ->
  (keep' = true -> keep = true) ->
  confined ok keep c -> confined ok' keep' c.
Proof.
  intros Hok Hkeep Hc p. specialize (Hc p).
  destruct (c p) as [[a | e | code] p1]; [| | exact Hc];
    destruct Hc as [(t & Ht & Hall) Hk];
    (split; [exists t; split; [exact Ht |] | auto]);
    rewrite forallb_forall in *; auto.
Qed.

Lemma confined_set_exitCode ok code : confined ok false (set_exitCode code).
Proof.
  intros p. cbn. split; [exists []; rewrite app_nil_r; auto | discriminate].
Qed.

Lemma confined_set_spinner ok b : confined ok false (set_spinner b).
Proof.
  intros p. cbn. split; [exists []; rewrite app_nil_r; auto | discriminate].
Qed.

Lemma confined_on_fs ok {A} (c : M A) : confined ok false (on_fs c).
Proof.
  intros p. unfold on_fs. destruct (c (fs p)) as [[a | e | []] w];
    (split; [exists []; cbn; rewrite app_nil_r; auto | discriminate]).
Qed.

(** Applies the confinement lemma that fits the head of the stage. *)
Ltac confine :=
  repeat lazymatch goal with
    | |- forall _, _ => intro
    | |- confined _ _ (ret _) => apply confined_ret
    | |- confined _ _ (throw _) => apply confined_throw
    | |- confined _ _ (lift _) => apply confined_lift
    | |- confined _ _ (gets _) => apply confined_gets
    | |- confined _ _ (emit _) => apply confined_emit; reflexivity
    | |- confined _ _ (bind _ _) => apply confined_bind
    | |- confined _ _ (then_ _ _) => apply confined_then
    | |- confined _ _ (catch_ _ _) => apply confined_catch
    | |- confined _ _ (finally_ _ _) => apply confined_finally
    | |- confined _ _ (started _) => apply confined_started
    | |- confined _ false (set_exitCode _) => apply confined_set_exitCode
    | |- confined _ false (set_spinner _) => apply confined_set_spinner
    | |- confined _ false (on_fs _) => apply confined_on_fs
    | |- confined _ _ (match ?x with _ => _ end) => destruct x
    end.

Lemma stopSpinner_confined : confined no_exit_event false _stopSpinner.
Proof. unfold _stopSpinner. confine. Qed.

Lemma startSpinner_confined env context :
  confined no_exit_event false (_startSpinner env context).
Proof. unfold _startSpinner. confine. Qed.

Lemma preExecuteMessage_confined command orgData :
  confined no_exit_event false (preExecuteMessage command orgData).
Proof. unfold preExecuteMessage. confine. Qed.

Lemma logTables_confined command obj tables :
  confined no_exit_event false (logTables command obj tables).
Proof.
  induction tables as [| [key val] rest IH]; cbn [logTables].
  - confine.
  - apply confined_bind; [| intros _; exact IH].
    unfold logTable. confine.
Qed.

Lemma logSuccess_confined env command context obj :
  confined no_exit_event false (_logSuccess env command context obj).
Proof.
  unfold _logSuccess, exitCode_or.
  destruct (_isApiMode env context); [confine |].
  destruct (getColumnData command) as [[tables | columns] |].
  - destruct obj as [| | | | | [|] |]; confine; apply logTables_confined.
  - destruct obj as [| | | | | [|] |]; confine.
  - destruct obj as [| | | | | [|] |]; confine.
Qed.

Lemma logError_confined env command context err :
  confined no_exit_event false (_logError env command context err).
Proof. unfold _logError, exitCode_or. confine. Qed.

(** The telemetry flow only adds telemetry events and touches nothing
    else, whatever its external calls do. *)
Lemma logCommandComplete_confined tel cmdName :
  confined telemetry_event true (_logCommandComplete tel cmdName).
Proof.
  unfold _logCommandComplete, save_startTime, calcUsage. confine.
Qed.

(** ** Telemetry *)

Lemma visible_app_telemetry l t :
  forallb telemetry_event t = true -> visible (l ++ t) = visible l.
Proof.
  intros H. unfold visible. rewrite List.filter_app.
  replace (List.filter user_visible t) with (@nil event);
    [apply app_nil_r |].
  induction t as [| e t IH]; [reflexivity |].
  cbn in H. apply andb_true_iff in H as [He Ht].
  cbn. unfold telemetry_event in He. destruct (user_visible e); [discriminate |].
  auto.
Qed.

Lemma logCommandComplete_not_rejected tel cmdName p e p' :
  _logCommandComplete tel cmdName p <> (Abrupt e, p').
Proof.
  unfold _logCommandComplete. unfold bind at 1. cbn [emit modify].
  unfold catch_.
  match goal with |- (match ?c with _ => _ end) <> _ =>
    destruct c as [[a | e0 | code] q] end; discriminate.
Qed.

Lemma logCommandComplete_fulfilled tel cmdName p :
  exists p', _logCommandComplete tel cmdName p = (Normal tt, p').
Proof.
  pose proof (logCommandComplete_confined tel cmdName p) as Hc.
  pose proof (logCommandComplete_not_rejected tel cmdName p) as Hr.
  destruct (_logCommandComplete tel cmdName p) as [[[] | e | code] p'].
  - eauto.
  - destruct (Hr e p' eq_refl).
  - destruct Hc.
Qed.

(** ** Exit *)

Lemma exits_app_quiet p p' t :
  trace p' = trace p ++ t -> forallb no_exit_event t = true -> exits p' = exits p.
Proof.
  intros Ht Hall. unfold exits, exit_calls, exit_decisions.
  rewrite Ht, !List.filter_app, !length_app.
  assert (List.filter is_exit_call t = [] /\ List.filter is_exit_decision t = [])
    as [-> ->].
  { clear Ht. induction t as [| e t IH]; [auto |].
    cbn in Hall. apply andb_true_iff in Hall as [He Hall].
    destruct (IH Hall) as [IH1 IH2]. cbn. rewrite IH1, IH2.
    unfold no_exit_event in He.
    destruct (is_exit_call e), (is_exit_decision e); try discriminate; auto. }
  cbn. f_equal; lia.
Qed.

(** A stage that is confined to events other than exits leaves the
    counters alone and does not end the process. *)
Lemma quiet_exits {A} (c : P A) p :
  confined no_exit_event false c ->
  exits (snd (c p)) = exits p /\ forall code, fst (c p) <> Terminated code.
Proof.
  intros Hc. specialize (Hc p).
  destruct (c p) as [[a | e | code] p']; [| | destruct Hc];
    destruct Hc as [(t & Ht & Hall) _]; cbn;
    (split; [eapply exits_app_quiet; eauto | discriminate]).
Qed.


Lemma exit_rethrows env context p e :
  resolve_softExit env context = Throw e ->
  _exit env context p
    = (Abrupt e, mkProcess (trace p ++ [ExitCalled]) (exitCode p) (spinner p) (fs p)).
Proof. intros H. unfold _exit. unfold bind, emit, modify. rewrite H. reflexivity. Qed.

Lemma token_session_off context err :
  token_session context = false -> needs_instanceUrl_action context err = false.
Proof.
  unfold token_session, needs_instanceUrl_action.
  destruct (ctx_org context) as [org |]; [| reflexivity].
  intros ->. reflexivity.
Qed.




Lemma stopSpinner_run p :
  exists p', _stopSpinner p = (Normal tt, p') /\
    exits p' = exits p /\ exitCode p' = exitCode p /\ fs p' = fs p.
Proof.
  unfold _stopSpinner. unfold bind, gets.
  destruct (spinner p); cbn; eexists; (split; [reflexivity |]);
    unfold exits, exit_calls, exit_decisions; cbn;
    rewrite ?List.filter_app, ?length_app; cbn;
    repeat split; f_equal; lia.
Qed.

Lemma telemetry_quiet tel cmdName :
  confined no_exit_event false (_logCommandComplete tel cmdName).
Proof.
  apply confined_weaken with telemetry_event true;
    [| discriminate | apply logCommandComplete_confined].
  intros [] H; try discriminate; reflexivity.
Qed.


(** ** The command invoker *)

Ltac stage :=
  first [ apply stopSpinner_confined | apply startSpinner_confined
        | apply preExecuteMessage_confined | apply logSuccess_confined
        | apply logError_confined | apply telemetry_quiet ].


(** Everything up to and including the success callback. *)
Lemma success_chain_confined env tel command context cmdName :
  confined no_exit_event false
    (ret tt
     |> then_ (fun _ => lift (validating command context))
     |> then_ (fun fixedContext =>
          let* orgData := lift (orgConfigWait context fixedContext) in
          ret (fixedContext, orgData))
     |> then_ (fun fo => preExecuteMessage command (snd fo) >> ret (fst fo))
     |> then_ (fun fixedContext => _startSpinner env context >> ret fixedContext)
     |> then_ (fun fixedContext =>
          on_fs (execute command (default context fixedContext)))
     |> then_ (succeeded env tel command context cmdName)).
Proof. unfold succeeded. repeat first [progress confine | stage]. Qed.


Lemma preExecuteMessage_run command orgData q :
  exists q', preExecuteMessage command orgData q = (Normal tt, q') /\ fs q' = fs q.
Proof.
  unfold preExecuteMessage.
  destruct orgData, (getPreExecuteMessage command); cbn; eauto.
Qed.

Lemma startSpinner_run env context q :
  exists q', _startSpinner env context q = (Normal tt, q') /\ fs q' = fs q.
Proof.
  unfold _startSpinner.
  destruct (showProgress context && env_FORCE_SHOW_SPINNER env
            && negb (ctx_json context)); cbn; eauto.
Qed.

Lemma on_fs_run {A} (c : M A) (a : A) w' q :
  c (fs q) = (Normal a, w') ->
  on_fs c q = (Normal a, mkProcess (trace q) (exitCode q) (spinner q) w').
Proof. intros H. unfold on_fs. rewrite H. reflexivity. Qed.


(** ** Independence from the telemetry flow *)

Lemma related_ret {A} (a : A) : related (ret a) (ret a).
Proof. intros p1 p2 H. cbn. auto. Qed.

Lemma related_throw {A} e : related (throw e : P A) (throw e).
Proof. intros p1 p2 H. cbn. auto. Qed.

Lemma related_lift {A} (r : result A) : related (lift r) (lift r).
Proof. destruct r; [apply related_ret | apply related_throw]. Qed.

Lemma related_gets {A} (f : process -> A) :
  (forall p1 p2, same_outcome p1 p2 -> f p1 = f p2) ->
  related (gets f) (gets f).
Proof. intros Hf p1 p2 H. cbn. split; [f_equal; auto | exact H]. Qed.

Lemma related_emit e : related (emit e) (emit e).
Proof.
  intros p1 p2 (Hc & Hs & Hf & Hv). cbn. split; [reflexivity |].
  repeat split; auto. cbn. unfold visible in *.
  rewrite !List.filter_app, Hv. reflexivity.
Qed.

Lemma related_set_exitCode code : related (set_exitCode code) (set_exitCode code).
Proof. intros p1 p2 (Hc & Hs & Hf & Hv). cbn. repeat split; auto. Qed.

Lemma related_set_spinner b : related (set_spinner b) (set_spinner b).
Proof. intros p1 p2 (Hc & Hs & Hf & Hv). cbn. repeat split; auto. Qed.

Lemma related_on_fs {A} (c : M A) : related (on_fs c) (on_fs c).
Proof.
  intros p1 p2 (Hc & Hs & Hf & Hv). unfold on_fs. rewrite Hf.
  destruct (c (fs p2)) as [r w]. cbn. repeat split; auto.
Qed.

Lemma related_process_exit {A} code :
  related (process_exit code : P A) (process_exit code).
Proof. intros p1 p2 H. cbn. auto. Qed.

Lemma related_bind {A B} (c1 c2 : P A) (k1 k2 : A -> P B) :
  related c1 c2 -> (forall a, related (k1 a) (k2 a)) ->
  related (bind c1 k1) (bind c2 k2).
Proof.
  intros Hc Hk p1 p2 H. unfold bind.
  destruct (Hc p1 p2 H) as [Hr Hs].
  destruct (c1 p1) as [r1 q1], (c2 p2) as [r2 q2]. cbn in Hr, Hs. subst r2.
  destruct r1 as [a | e | code]; [apply Hk; exact Hs | cbn; auto | cbn; auto].
Qed.

Lemma related_then {A B} (f1 f2 : A -> P B) (c1 c2 : P A) :
  related c1 c2 -> (forall a, related (f1 a) (f2 a)) ->
  related (then_ f1 c1) (then_ f2 c2).
Proof. apply related_bind. Qed.

Lemma related_catch {A} (h1 h2 : JsError -> P A) (c1 c2 : P A) :
  related c1 c2 -> (forall e, related (h1 e) (h2 e)) ->
  related (catch_ h1 c1) (catch_ h2 c2).
Proof.
  intros Hc Hh p1 p2 H. unfold catch_.
  destruct (Hc p1 p2 H) as [Hr Hs].
  destruct (c1 p1) as [r1 q1], (c2 p2) as [r2 q2]. cbn in Hr, Hs. subst r2.
  destruct r1 as [a | e | code]; [cbn; auto | apply Hh; exact Hs | cbn; auto].
Qed.

Lemma related_finally {A B} (g1 g2 : P B) (c1 c2 : P A) :
  related c1 c2 -> related g1 g2 ->
  related (finally_ g1 c1) (finally_ g2 c2).
Proof.
  intros Hc Hg p1 p2 H. unfold finally_.
  destruct (Hc p1 p2 H) as [Hr Hs].
  destruct (c1 p1) as [r1 q1], (c2 p2) as [r2 q2]. cbn in Hr, Hs. subst r2.
  destruct r1 as [a | e | code]; [| | cbn; auto];
    destruct (Hg q1 q2 Hs) as [Hr' Hs'];
    destruct (g1 q1) as [r1' q1'], (g2 q2) as [r2' q2']; cbn in Hr', Hs';
    subst r2'; destruct r1'; cbn; auto.
Qed.

(** Follows the structure of a stage that appears on both sides. *)
Ltac relate :=
  repeat lazymatch goal with
    | |- forall _, _ => intro
    | |- related (ret _) (ret _) => apply related_ret
    | |- related (throw _) (throw _) => apply related_throw
    | |- related (lift _) (lift _) => apply related_lift
    | |- related (emit _) (emit _) => apply related_emit
    | |- related (process_exit _) (process_exit _) => apply related_process_exit
    | |- related (set_exitCode _) (set_exitCode _) => apply related_set_exitCode
    | |- related (set_spinner _) (set_spinner _) => apply related_set_spinner
    | |- related (on_fs _) (on_fs _) => apply related_on_fs
    | |- related (gets _) (gets _) =>
        apply related_gets;
        let H := fresh in
        intros ? ? (H & ? & ? & ?); cbn; try rewrite H; congruence
    | |- related (bind _ _) (bind _ _) => apply related_bind
    | |- related (then_ _ _) (then_ _ _) => apply related_then
    | |- related (catch_ _ _) (catch_ _ _) => apply related_catch
    | |- related (finally_ _ _) (finally_ _ _) => apply related_finally
    | |- related (match ?x with _ => _ end) (match ?x with _ => _ end) => destruct x
    end.

Lemma stopSpinner_related : related _stopSpinner _stopSpinner.
Proof. unfold _stopSpinner. relate. Qed.

Lemma startSpinner_related env context :
  related (_startSpinner env context) (_startSpinner env context).
Proof. unfold _startSpinner. relate. Qed.

Lemma preExecuteMessage_related command orgData :
  related (preExecuteMessage command orgData) (preExecuteMessage command orgData).
Proof. unfold preExecuteMessage. relate. Qed.

Lemma logTables_related command obj tables :
  related (logTables command obj tables) (logTables command obj tables).
Proof.
  induction tables as [| [key val] rest IH]; cbn [logTables].
  - relate.
  - apply related_bind; [| intros _; exact IH].
    unfold logTable. relate.
Qed.

Lemma logSuccess_related env command context obj :
  related (_logSuccess env command context obj)
          (_logSuccess env command context obj).
Proof.
  unfold _logSuccess, exitCode_or.
  destruct (_isApiMode env context); [relate |].
  destruct (getColumnData command) as [[tables | columns] |].
  - destruct obj as [| | | | | [|] |]; relate; apply logTables_related.
  - destruct obj as [| | | | | [|] |]; relate.
  - destruct obj as [| | | | | [|] |]; relate.
Qed.

Lemma logError_related env command context err :
  related (_logError env command context err)
          (_logError env command context err).
Proof. unfold _logError, exitCode_or. relate. Qed.

Lemma exit_related env context :
  related (_exit env context) (_exit env context).
Proof. unfold _exit. relate. Qed.

Lemma same_outcome_trans p1 p2 p3 :
  same_outcome p1 p2 -> same_outcome p2 p3 -> same_outcome p1 p3.
Proof.
  intros (? & ? & ? & ?) (? & ? & ? & ?). repeat split; congruence.
Qed.

Lemma same_outcome_sym p1 p2 : same_outcome p1 p2 -> same_outcome p2 p1.
Proof. intros (? & ? & ? & ?). repeat split; congruence. Qed.

(** The telemetry step changes nothing of the outcome. *)
Lemma logCommandComplete_same_outcome tel cmdName p :
  exists p', _logCommandComplete tel cmdName p = (Normal tt, p') /\ same_outcome p p'.
Proof.
  destruct (logCommandComplete_fulfilled tel cmdName p) as [p' Hrun].
  pose proof (logCommandComplete_confined tel cmdName p) as Hc.
  rewrite Hrun in Hc. destruct Hc as [(t & Ht & Hall) Hkeep].
  destruct (Hkeep eq_refl) as (Hcode & Hspin & Hfs).
  exists p'. split; [exact Hrun |]. repeat split; auto.
  rewrite Ht. symmetry. apply visible_app_telemetry, Hall.
Qed.

(** Two telemetry flows, whatever their external calls do, are related. *)
Lemma logCommandComplete_related tel1 tel2 cmdName :
  related (_logCommandComplete tel1 cmdName) (_logCommandComplete tel2 cmdName).
Proof.
  intros p1 p2 H.
  destruct (logCommandComplete_same_outcome tel1 cmdName p1) as (q1 & -> & H1).
  destruct (logCommandComplete_same_outcome tel2 cmdName p2) as (q2 & -> & H2).
  cbn. split; [reflexivity |].
  apply same_outcome_trans with p1; [apply same_outcome_sym, H1 |].
  apply same_outcome_trans with p2; assumption.
Qed.

Ltac related_stage :=
  first [ apply stopSpinner_related | apply startSpinner_related
        | apply preExecuteMessage_related | apply logSuccess_related
        | apply logError_related | apply exit_related
        | apply logCommandComplete_related ].

Lemma execCommand_related env tel1 tel2 command context :
  related (_execCommand env tel1 command context)
          (_execCommand env tel2 command context).
Proof.
  unfold _execCommand, succeeded, failed.
  repeat first [progress relate | related_stage].
Qed.

(** C6: whatever happens inside the telemetry completion flow (the load
    or save of the persisted state, the hub org lookup, the analytics
    pull, the aggregation, the submission), the promise it returns is
    fulfilled and the step leaves the exit code, the spinner, the files
    and what the user sees as they were; and two invocations that differ
    only in what the telemetry flow meets end the same way, with the same
    exit code and the same user-visible output. *)
Theorem logCommandComplete_swallows_failures :
  (forall tel cmdName p,
     exists p',
       _logCommandComplete tel cmdName p = (Normal tt, p') /\
       exitCode p' = exitCode p /\
       spinner p' = spinner p /\
       fs p' = fs p /\
       visible (trace p') = visible (trace p)) /\
  (forall env tel1 tel2 command context p,
     let r1 := _execCommand env tel1 command context p in
     let r2 := _execCommand env tel2 command context p in
     fst r1 = fst r2 /\
     exitCode (snd r1) = exitCode (snd r2) /\
     fs (snd r1) = fs (snd r2) /\
     visible (trace (snd r1)) = visible (trace (snd r2))).
Proof.
  split.
  - intros tel cmdName p.
    destruct (logCommandComplete_same_outcome tel cmdName p)
      as (p' & Hrun & Hc & Hs & Hf & Hv).
    exists p'. repeat split; auto.
  - intros env tel1 tel2 command context p r1 r2.
    assert (same_outcome p p) as Hp by (repeat split; reflexivity).
    destruct (execCommand_related env tel1 tel2 command context p p Hp)
      as [Hr (Hc & Hs & Hf & Hv)].
    repeat split; assumption.
Qed.

(** ** The running average *)

(** [Math.round] of a quotient of integers, in integer arithmetic. *)
Lemma Math_round_div (a b : Z) :
  (0 < b)%Z ->
  Math_round (inject_Z a / inject_Z b)%Q = ((2 * a + b) / (2 * b))%Z.
Proof.
  intros Hb. destruct b as [| pb | pb]; try lia.
  unfold Math_round, Qfloor, Qplus, Qdiv, Qmult, Qinv, inject_Z. cbn.
  f_equal; lia.
Qed.

(** Line 296 in integer arithmetic. *)
Lemma running_average_div (runtime avg n : Z) :
  (0 <= n)%Z ->
  Math_round ((inject_Z runtime + inject_Z avg * inject_Z n) / inject_Z (n + 1))%Q
  = ((2 * (runtime + avg * n) + (n + 1)) / (2 * (n + 1)))%Z.
Proof.
  intros Hn. remember (n + 1)%Z as m eqn:Hm.
  destruct m as [| pm | pm]; try lia.
  unfold Math_round, Qfloor, Qplus, Qdiv, Qmult, Qinv, inject_Z. cbn.
  f_equal; lia.
Qed.

Lemma recorded_fields c runtime u :
  let u' := updateMinMax runtime
              (countExecution (updateAverage runtime (countError c u))) in
  avgRuntime u'
    = Math_round ((inject_Z runtime
                   + inject_Z (avgRuntime u) * inject_Z (totalExecutions u))
                  / inject_Z (totalExecutions u + 1))%Q /\
  totalExecutions u' = (totalExecutions u + 1)%Z.
Proof.
  unfold updateMinMax, countExecution, updateAverage, countError.
  destruct (ac_status c =? 0)%Z; cbn;
    repeat match goal with |- context [if ?b then _ else _] => destruct b end;
    cbn; auto.
Qed.


(** Every record in the map has a count of at least zero, and of at least
    one once [recordCommand] has made it. *)
Lemma recordCommand_counts tel orgId usages c :
  (forall k u, usages !! k = Some u -> (0 <= totalExecutions u)%Z) ->
  forall k u,
    recordCommand tel orgId usages c !! k = Some u -> (0 <= totalExecutions u)%Z.
Proof.
  intros Hall k u. unfold recordCommand.
  destruct (decide (commandKey c = k)) as [<- | Hne].
  - rewrite lookup_insert_eq. intros [= <-].
    match goal with |- context [countError c ?u0] =>
      destruct (recorded_fields c (ac_runtime c) u0) as [_ ->];
      assert (0 <= totalExecutions u0)%Z; [| lia]
    end.
    destruct (usages !! commandKey c) as [u0 |] eqn:Hu; [eauto | cbn; lia].
  - rewrite lookup_insert_ne by exact Hne. apply Hall.
Qed.

(** [Math.round] takes halves up, also below zero. *)
Example Math_round_halves :
  Math_round (215 # 2) = 108%Z /\ Math_round (-5 # 2) = (-2)%Z.
Proof. split; reflexivity. Qed.

(** The first command under a key starts from a count and an average of
    zero, so its runtime is the average. *)
Lemma recordCommand_first_sight tel orgId usages c :
  usages !! commandKey c = None ->
  exists u',
    recordCommand tel orgId usages c !! commandKey c = Some u' /\
    avgRuntime u' = ac_runtime c /\
    totalExecutions u' = 1%Z.
Proof.
  intros Hu. unfold recordCommand. rewrite Hu, lookup_insert_eq.
  eexists. split; [reflexivity |].
  assert (Math_round ((inject_Z (ac_runtime c) + inject_Z 0 * inject_Z 0)
                      / inject_Z (0 + 1))%Q = ac_runtime c) as Havg.
  { rewrite running_average_div by lia.
    symmetry. apply (Z.div_unique _ _ _ 1); lia. }
  unfold updateMinMax, countExecution, updateAverage, countError, newUsage.
  destruct (ac_status c =? 0)%Z; cbn;
    repeat match goal with |- context [if ?b then _ else _] => destruct b end;
    cbn; auto.
Qed.

(** ** The split command through the pipeline *)

(** C3 (failing input): the plan file does not exist.  [split] throws, but
    what it throws is the failure of the message lookup inside
    [pluginError]: a plain [Error] whose message starts with [undefined],
    not an error named after [dataSplitFileNotFound] with the text "Could
    not find specified file".  The pipeline reports that error and leaves
    exit code 1. *)
Theorem missing_manifest_reports_lookup_failure :
  let e := lookup_failure "Could not find specified file" in
  let r := run quiet_env quiet_telemetry plan_context (initial_process empty_world) in
  split plan_context empty_world = (Abrupt e, empty_world) /\
  err_name e = "Error" /\
  err_message e <> "Could not find specified file" /\
  exitCode (snd r) = Some 1%Z /\
  exists shown,
    visible (trace (snd r))
    = [LoggerError shown;
       LoggerDebugError (mkErrorObject (VStr (err_message e)) 1 "Error" None);
       LogServerError e;
       ExitCalled;
       ExitDecided SoftExit].
Proof.
  intros e r.
  split; [apply split_missing_manifest; reflexivity |].
  split; [reflexivity |].
  split; [apply util_format_undefined_neq; reflexivity |].
  split; [reflexivity |].
  eexists. reflexivity.
Qed.

(** * Further properties *)

(** ** The message catalog and the error factory *)

Lemma no_bundle_has_UndefinedLocalizationLabel bundle t :
  messages bundle = Some t -> table_get t "UndefinedLocalizationLabel" = None.
Proof.
  unfold messages. intros H.
  repeat match type of H with
         | (if ?c then _ else _) = _ => destruct c
         end; try discriminate; injection H as <-; reflexivity.
Qed.

(** X1: when [getMessage] throws, it is either a [TypeError] for a bundle
    that does not exist, or, for a label the bundle lacks, an [Error] whose
    message starts with [undefined]: no bundle defines the template
    [UndefinedLocalizationLabel] that the message is formatted from. *)
Theorem getMessage_failure_shape label args bundle e :
  getMessage label args bundle = Throw e ->
  (messages bundle = None /\ err_name e = "TypeError") \/
  (exists t, messages bundle = Some t /\ table_get t label = None /\
             err_name e = "Error" /\
             String.prefix "undefined" (err_message e) = true).
Proof.
  unfold getMessage. destruct (messages bundle) as [t |] eqn:Hb.
  - destruct (table_get t label) eqn:Hl.
    + destruct args; discriminate.
    + intros [= <-]. right. exists t.
      rewrite (no_bundle_has_UndefinedLocalizationLabel bundle t Hb).
      repeat split; solve [reflexivity | assumption].
  - intros [= <-]. left. split; reflexivity.
Qed.


(** ** Chunk file names *)

Lemma append_nil_r (s : string) : s +:+ "" = s.
Proof.
  induction s as [| c s IH]; [reflexivity |].
  change (String c s +:+ "") with (String c (s +:+ "")). rewrite IH. reflexivity.
Qed.

Lemma contains_char_append c a b :
  contains_char c (a +:+ b) = contains_char c a || contains_char c b.
Proof.
  induction a as [| x a IH]; [reflexivity |].
  change (String x a +:+ b) with (String x (a +:+ b)).
  cbn [contains_char]. rewrite IH, orb_assoc. reflexivity.
Qed.

Lemma split_on_no_sep sep s :
  contains_char sep s = false -> split_on sep s = [s].
Proof.
  induction s as [| c s IH]; [reflexivity |].
  cbn [contains_char split_on]. intros H.
  apply orb_false_iff in H as [Hc Hs]. rewrite Hc, (IH Hs). reflexivity.
Qed.

Lemma split_on_first sep a r :
  contains_char sep a = false ->
  split_on sep (a +:+ String sep r) = a :: split_on sep r.
Proof.
  induction a as [| c a IH]; intros H.
  - change ("" +:+ String sep r) with (String sep r).
    cbn [split_on]. rewrite Ascii.eqb_refl. reflexivity.
  - cbn [contains_char] in H. apply orb_false_iff in H as [Hc Ha].
    change (String c a +:+ String sep r) with (String c (a +:+ String sep r)).
    cbn [split_on]. rewrite Hc, (IH Ha). reflexivity.
Qed.

Lemma split_on_after sep x y :
  exists l, l <> [] /\ split_on sep (x +:+ String sep y) = l ++ split_on sep y.
Proof.
  induction x as [| c x (l & Hl & IH)].
  - exists [""]. split; [discriminate |].
    change ("" +:+ String sep y) with (String sep y).
    cbn [split_on]. rewrite Ascii.eqb_refl. reflexivity.
  - change (String c x +:+ String sep y) with (String c (x +:+ String sep y)).
    cbn [split_on]. rewrite IH. destruct (Ascii.eqb c sep).
    + exists ("" :: l). split; [discriminate | reflexivity].
    + destruct l as [| h t]; [congruence |].
      exists (String c h :: t). split; [discriminate | reflexivity].
Qed.

Lemma last_app_nonempty {A} (l m : list A) d :
  m <> [] -> List.last (l ++ m) d = List.last m d.
Proof.
  intros Hm. induction l as [| a l IH]; [reflexivity |].
  cbn [app]. destruct (l ++ m) eqn:E.
  - destruct l, m; try discriminate; congruence.
  - cbn [List.last]. exact IH.
Qed.

(** A reference into a subfolder keeps only its last component. *)
Lemma path_basename_join dir name :
  contains_char "/" name = false -> path_basename (path_join dir name) = name.
Proof.
  intros H. unfold path_basename, path_join.
  change ("/" +:+ name) with (String "/" name).
  destruct (split_on_after "/" dir name) as (l & Hl & ->).
  rewrite split_on_no_sep by exact H.
  rewrite last_app_nonempty by discriminate. reflexivity.
Qed.

(** X3: for a reference [dir/stem.ext], also with further dot-separated
    parts after [ext], the chunk that starts at record [i] is named
    [stem<i>.ext]: the folder of the reference and every part after the
    second are dropped from the name. *)
Theorem chunk_fileName_keeps_two_parts dir stem ext tail i :
  contains_char "/" stem = false -> contains_char "." stem = false ->
  contains_char "/" ext = false -> contains_char "." ext = false ->
  (tail = "" \/ exists r, tail = String "." r /\ contains_char "/" r = false) ->
  chunk_fileName (path_join dir (stem +:+ "." +:+ ext +:+ tail)) i
    = stem +:+ decimal i +:+ "." +:+ ext.
Proof.
  intros Hs1 Hs2 He1 He2 Htail. unfold chunk_fileName.
  assert (contains_char "/" tail = false) as Ht.
  { destruct Htail as [-> | (r & -> & Hr)]; [reflexivity | exact Hr]. }
  rewrite path_basename_join.
  2:{ rewrite !contains_char_append, Hs1, He1, Ht. reflexivity. }
  change ("." +:+ ext +:+ tail) with (String "." (ext +:+ tail)).
  rewrite split_on_first by exact Hs2.
  assert (exists others, split_on "." (ext +:+ tail) = ext :: others)
    as [others ->].
  { destruct Htail as [-> | (r & -> & _)].
    - rewrite append_nil_r, split_on_no_sep by exact He2. eauto.
    - rewrite split_on_first by exact He2. eauto. }
  reflexivity.
Qed.

(** X4: a referenced file whose name has no dot gets chunk names that end
    in [.undefined]: [fname[1]] is undefined and is concatenated as text. *)
Theorem chunk_fileName_without_extension f i :
  contains_char "/" f = false -> contains_char "." f = false ->
  chunk_fileName f i = f +:+ decimal i +:+ ".undefined".
Proof.
  intros Hslash Hdot. unfold chunk_fileName, path_basename.
  rewrite (split_on_no_sep "/") by exact Hslash. cbn [List.last].
  rewrite split_on_no_sep by exact Hdot. reflexivity.
Qed.

(** ** [_splitFiles] beyond one file *)

Lemma breakupDataFile_small_run datafolder f records w :
  disk w !! path_join datafolder f = Some (DataJson records) ->
  length records <= 200 ->
  _breakupDataFile datafolder f w =
    (Normal tt,
     mkWorld (cwd w) (disk w) (set_current w (current_array w ++ [f]))
             (temparray w) (written w)).
Proof.
  intros Hfile Hsmall. unfold _breakupDataFile, require_records.
  unfold bind at 1. unfold bind at 1. unfold gets at 1. rewrite Hfile.
  unfold ret at 1.
  destruct (Nat.leb_spec (length records) 200); [| lia].
  apply temparray_push_run.
Qed.

Lemma breakupDataFile_big_run datafolder f records w :
  disk w !! path_join datafolder f = Some (DataJson records) ->
  200 < length records ->
  _breakupDataFile datafolder f w =
    (Normal tt,
     mkWorld (cwd w) (disk w)
             (arrays w ++ [chunk_names f (length records)])
             (length (arrays w))
             (written w ++
              (chunk_write datafolder f records <$>
               chunk_starts (chunks_needed (length records) 0) 0))).
Proof.
  intros Hfile Hbig. unfold _breakupDataFile, require_records.
  unfold bind at 1. unfold bind at 1. unfold gets at 1. rewrite Hfile.
  unfold ret at 1.
  destruct (Nat.leb_spec (length records) 200); [lia |].
  unfold bind, temparray_reset, modify.
  rewrite breakup_loop_run;
    [| lia | unfold world_ok; cbn; rewrite length_app; cbn; lia].
  unfold set_current, current_array. cbn [cwd disk arrays temparray written].
  rewrite lookup_app_r, Nat.sub_diag by lia. cbn [lookup list_lookup].
  rewrite insert_app_r_alt, Nat.sub_diag by lia. reflexivity.
Qed.


Lemma only_chunks_written_refl w : only_chunks_written w w.
Proof. exists []. rewrite app_nil_r. auto. Qed.

Lemma only_chunks_written_trans w1 w2 w3 :
  only_chunks_written w1 w2 -> only_chunks_written w2 w3 ->
  only_chunks_written w1 w3.
Proof.
  intros (ws1 & H1 & F1) (ws2 & H2 & F2). exists (ws1 ++ ws2).
  rewrite H2, H1, app_assoc. split; [reflexivity |].
  apply Forall_app; auto.
Qed.

(** The files of one entry, when every one of them is a data file: the
    loop ends normally, writes chunk files only, and leaves in
    [temparray] what [collected] computes. *)
Lemma forEach_files_run datafolder files :
  forall w,
    world_ok w ->
    Forall (data_file (disk w) datafolder) files ->
    exists w',
      forEach_files datafolder files w = (Normal tt, w') /\
      world_ok w' /\ disk w' = disk w /\ cwd w' = cwd w /\
      current_array w'
        = collected (disk w) datafolder (current_array w) files /\
      only_chunks_written w w'.
Proof.
  induction files as [| f rest IH]; intros w Hw Hall.
  - exists w. repeat split; try reflexivity; auto using only_chunks_written_refl.
  - apply Forall_cons in Hall as [[records Hfile] Hrest].
    cbn [forEach_files collected]. rewrite Hfile. unfold bind at 1.
    destruct (Nat.leb_spec (length records) 200) as [Hsmall | Hbig].
    + rewrite (breakupDataFile_small_run _ _ records) by assumption.
      set (w1 := mkWorld _ _ _ _ _).
      destruct (IH w1) as (w' & Hrun & Hw' & Hd & Hc & Hcur & Hwr);
        [apply world_ok_push, Hw | exact Hrest |].
      exists w'. rewrite Hrun. repeat split; auto.
      rewrite Hcur. unfold w1. rewrite current_array_push by exact Hw.
      reflexivity.
    + rewrite (breakupDataFile_big_run _ _ records) by assumption.
      set (w1 := mkWorld _ _ _ _ _).
      assert (world_ok w1) as Hw1.
      { unfold world_ok, w1. cbn. rewrite length_app. cbn. lia. }
      destruct (IH w1 Hw1 Hrest) as (w' & Hrun & Hw' & Hd & Hc & Hcur & Hwr).
      exists w'. rewrite Hrun. repeat split; auto.
      * rewrite Hcur. f_equal. unfold current_array, w1. cbn.
        rewrite lookup_app_r, Nat.sub_diag by lia. reflexivity.
      * eapply only_chunks_written_trans; [| exact Hwr].
        eexists. split; [reflexivity |].
        apply Forall_fmap, Forall_forall. intros s _. cbn. eauto.
Qed.

Lemma collected_last_oversized d datafolder files f records :
  forall acc,
    Forall (data_file d datafolder) files ->
    d !! path_join datafolder f = Some (DataJson records) ->
    200 < length records ->
    collected d datafolder acc (files ++ [f])
      = chunk_names f (length records).
Proof.
  intros acc Hall Hfile Hbig. revert acc.
  induction Hall as [| g rest [rs Hg] _ IH]; intros acc; cbn [app collected].
  - rewrite Hfile. destruct (Nat.leb_spec (length records) 200); [lia |].
    reflexivity.
  - rewrite Hg. destruct (length rs <=? 200); apply IH.
Qed.

Lemma final_disk_last w pre fp c :
  written w = pre ++ [(fp, c)] -> final_disk w !! fp = Some c.
Proof.
  intros H. unfold final_disk. rewrite H, fold_left_app. cbn.
  apply lookup_insert_eq.
Qed.

(** A plan of one entry whose files are all data files: what the split
    leaves. *)
Lemma split_single_entry context w files :
  let filepath := path_resolve (cwd w) (flags_dataplan context) in
  let datafolder := path_dirname filepath in
  world_ok w ->
  disk w !! filepath = Some (PlanJson [files]) ->
  Forall (data_file (disk w) datafolder) files ->
  exists w',
    split context w = (Normal tt, w') /\
    manifest_after filepath w'
      = Some (PlanJson [collected (disk w) datafolder (current_array w) files]).
Proof.
  intros filepath datafolder Hw Hplan Hall.
  destruct (forEach_files_run datafolder files w Hw Hall)
    as (w1 & Hrun & Hw1 & Hd & Hc & Hcur & _).
  unfold split, _splitFiles, _validateFile, require_plan.
  unfold bind at 1. unfold gets at 1. fold filepath. fold datafolder.
  unfold bind at 1. unfold gets at 1. rewrite Hplan. cbn [negb].
  unfold bind at 1. unfold bind at 1. unfold gets at 1. rewrite Hplan.
  unfold ret at 1. cbn [map forEach_plan].
  unfold bind at 1. unfold bind at 1. unfold bind at 1. unfold gets at 1.
  cbn [deref]. rewrite Hrun.
  unfold bind, gets, _writeFile, modify, ret. cbn [app map deref].
  eexists. split; [reflexivity |].
  unfold manifest_after. erewrite final_disk_last by reflexivity.
  rewrite <- Hcur. unfold current_array. reflexivity.
Qed.

(** X6: in a plan of one entry whose last file has more than 200 records,
    the rewritten entry names the chunks of that last file and nothing
    else: every file listed before it, small or split, is missing from the
    manifest. *)
Theorem split_keeps_only_last_oversized_file context w files f records :
  let filepath := path_resolve (cwd w) (flags_dataplan context) in
  let datafolder := path_dirname filepath in
  world_ok w ->
  disk w !! filepath = Some (PlanJson [files ++ [f]]) ->
  Forall (data_file (disk w) datafolder) files ->
  disk w !! path_join datafolder f = Some (DataJson records) ->
  200 < length records ->
  exists w',
    split context w = (Normal tt, w') /\
    manifest_after filepath w'
      = Some (PlanJson [chunk_names f (length records)]).
Proof.
  intros filepath datafolder Hw Hplan Hall Hfile Hbig.
  subst filepath datafolder.
  destruct (split_single_entry context w (files ++ [f]) Hw Hplan)
    as (w' & Hrun & Hm).
  { apply Forall_app. split; [exact Hall |].
    apply Forall_singleton. exists records. exact Hfile. }
  exists w'. split; [exact Hrun |].
  rewrite Hm.
  rewrite (collected_last_oversized _ _ _ _ records) by assumption.
  reflexivity.
Qed.


Lemma replicate_snoc {A} k (x : A) : replicate k x ++ [x] = replicate (S k) x.
Proof. induction k as [| k IH]; [reflexivity |]. cbn. rewrite IH. reflexivity. Qed.

Lemma map_deref_done w k rest :
  world_ok w ->
  map (deref w) (replicate k (TempArray (temparray w)) ++ map OwnArray rest)
  = replicate k (current_array w) ++ rest.
Proof.
  intros Hw. rewrite map_app. f_equal.
  - induction k as [| k IH]; [reflexivity |]. cbn [replicate map].
    rewrite IH. reflexivity.
  - rewrite map_map. cbn. apply map_id.
Qed.

(** A plan whose files are all small: every visit pushes onto the one
    array and ends with a write of the manifest. *)
Lemma forEach_plan_small filepath datafolder :
  forall todo k w,
    world_ok w ->
    Forall (Forall (small_file (disk w) datafolder)) todo ->
    exists done' ws,
      forEach_plan filepath datafolder
        (replicate k (TempArray (temparray w))) (map OwnArray todo) w
      = (Normal done',
         mkWorld (cwd w) (disk w)
                 (set_current w (current_array w ++ concat todo))
                 (temparray w) (written w ++ ws)) /\
      length ws = length todo /\
      Forall (fun nc => fst nc = filepath) ws /\
      (todo <> [] ->
       last ws = Some (filepath,
                       PlanJson (replicate (k + length todo)
                                   (current_array w ++ concat todo)))).
Proof.
  induction todo as [| files rest IH]; intros k w Hw Hall.
  - exists (replicate k (TempArray (temparray w))), []. cbn.
    rewrite !app_nil_r, set_current_same by exact Hw.
    split; [destruct w; reflexivity |]. repeat split; auto. congruence.
  - apply Forall_cons in Hall as [Hfiles Hrest].
    cbn [map forEach_plan].
    unfold bind at 1. unfold gets at 1. cbn [deref].
    unfold bind at 1. rewrite forEach_files_small by assumption.
    unfold bind at 1. unfold gets at 1. cbn [temparray].
    unfold bind at 1. unfold gets at 1.
    unfold bind at 1. unfold _writeFile at 1. unfold modify at 1.
    cbn [cwd disk arrays temparray written].
    rewrite replicate_snoc.
    set (w1 := mkWorld (cwd w) (disk w)
                       (set_current w (current_array w ++ files))
                       (temparray w) (written w)).
    assert (world_ok w1) as Hw1 by apply world_ok_push, Hw.
    assert (current_array w1 = current_array w ++ files) as Hcur1
      by apply current_array_push, Hw.
    change (replicate (S k) (TempArray (temparray w)))
      with (replicate (S k) (TempArray (temparray w1))).
    rewrite (map_deref_done w1) by exact Hw1. rewrite Hcur1.
    set (x := (filepath, PlanJson (replicate (S k) (current_array w ++ files)
                                   ++ rest))).
    set (w2 := mkWorld (cwd w) (disk w)
                       (set_current w (current_array w ++ files))
                       (temparray w) (written w ++ [x])).
    destruct (IH (S k) w2) as (done' & ws & Hrun & Hlen & Hfp & Hlast);
      [exact Hw1 | exact Hrest |].
    change (temparray w1) with (temparray w2). rewrite Hrun.
    exists done', (x :: ws).
    assert (current_array w2 = current_array w ++ files) as Hcur2
      by exact Hcur1.
    split; [| split; [| split]].
    + f_equal. f_equal.
      * rewrite Hcur2. unfold set_current, w2. cbn [arrays temparray].
        unfold set_current. rewrite list_insert_insert_eq.
        cbn [concat]. rewrite app_assoc. reflexivity.
      * unfold w2. cbn [written]. rewrite <- app_assoc. reflexivity.
    + cbn. rewrite Hlen. reflexivity.
    + constructor; [reflexivity | exact Hfp].
    + intros _. destruct rest as [| r rest'].
      * destruct ws; [| discriminate]. cbn [last].
        unfold x. cbn [concat length]. rewrite !app_nil_r, Nat.add_1_r.
        reflexivity.
      * destruct ws as [| y ws']; [discriminate |].
        change (last (x :: y :: ws')) with (last (y :: ws')).
        rewrite Hlast by discriminate. rewrite Hcur2.
        cbn [concat length]. rewrite <- app_assoc.
        do 3 f_equal. f_equal. lia.
Qed.

(** X5: for a plan whose files all have at most 200 records, run while
    [temparray] is still empty, the split writes no data file, rewrites
    the manifest once per plan entry, and leaves every entry with the one
    list of all files of all entries, in order. *)
Theorem split_small_plan_merges_entries context w entries :
  let filepath := path_resolve (cwd w) (flags_dataplan context) in
  let datafolder := path_dirname filepath in
  world_ok w ->
  current_array w = [] ->
  disk w !! filepath = Some (PlanJson entries) ->
  entries <> [] ->
  Forall (Forall (small_file (disk w) datafolder)) entries ->
  exists w' ws,
    split context w = (Normal tt, w') /\
    written w' = written w ++ ws /\
    length ws = length entries /\
    Forall (fun nc => fst nc = filepath) ws /\
    manifest_after filepath w'
      = Some (PlanJson (replicate (length entries) (concat entries))).
Proof.
  intros filepath datafolder Hw Hcur Hplan Hne Hall.
  destruct (forEach_plan_small filepath datafolder entries 0 w Hw Hall)
    as (done' & ws & Hrun & Hlen & Hfp & Hlast).
  specialize (Hlast Hne). rewrite Hcur in Hlast. cbn [app Nat.add] in Hlast.
  unfold split, _splitFiles, _validateFile, require_plan.
  unfold bind at 1. unfold gets at 1. fold filepath. fold datafolder.
  unfold bind at 1. unfold gets at 1. rewrite Hplan. cbn [negb].
  unfold bind at 1. unfold bind at 1. unfold gets at 1. rewrite Hplan.
  unfold ret at 1. unfold bind at 1.
  change (@nil filesRef) with (replicate 0 (TempArray (temparray w))).
  rewrite Hrun. unfold ret.
  eexists. exists ws. split; [reflexivity |].
  cbn [written]. repeat split; auto.
  apply last_Some in Hlast as [pre ->].
  unfold manifest_after. eapply final_disk_last. cbn [written].
  rewrite app_assoc. reflexivity.
Qed.

(** ** What the stages of the pipeline leave alone *)

Section Preservation.

Variable I : process -> Prop.

Lemma preserves_ret {A} (a : A) : preserves I (ret a).
Proof. intros p H. exact H. Qed.

Lemma preserves_throw {A} e : preserves I (throw e : P A).
Proof. intros p H. exact H. Qed.

Lemma preserves_lift {A} (r : result A) : preserves I (lift r).
Proof. destruct r; [apply preserves_ret | apply preserves_throw]. Qed.

Lemma preserves_gets {A} (f : process -> A) : preserves I (gets f).
Proof. intros p H. exact H. Qed.

Lemma preserves_process_exit {A} code : preserves I (process_exit code : P A).
Proof. intros p H. exact H. Qed.

Lemma preserves_emit e : trace_monotone I -> preserves I (emit e).
Proof. intros Ht p H. apply Ht, H. Qed.

Lemma preserves_set_exitCode c : exitCode_blind I -> preserves I (set_exitCode c).
Proof. intros Hb p H. apply Hb, H. Qed.

Lemma preserves_set_spinner_false : stop_blind I -> preserves I (set_spinner false).
Proof. intros Hb p H. apply Hb, H. Qed.

Lemma preserves_set_spinner_true : start_blind I -> preserves I (set_spinner true).
Proof. intros Hb p H. apply Hb, H. Qed.

Lemma preserves_on_fs {A} (c : M A) : fs_blind I -> preserves I (on_fs c).
Proof.
  intros Hb p H. unfold on_fs. destruct (c (fs p)) as [r w]. apply Hb, H.
Qed.

Lemma preserves_bind {A B} (c : P A) (k : A -> P B) :
  preserves I c -> (forall a, preserves I (k a)) -> preserves I (bind c k).
Proof.
  intros Hc Hk p H. unfold bind. specialize (Hc p H).
  destruct (c p) as [[a | e | code] p1]; [apply Hk |..]; exact Hc.
Qed.

Lemma preserves_then {A B} (f : A -> P B) (c : P A) :
  preserves I c -> (forall a, preserves I (f a)) -> preserves I (then_ f c).
Proof. apply preserves_bind. Qed.

Lemma preserves_catch {A} (h : JsError -> P A) (c : P A) :
  preserves I c -> (forall e, preserves I (h e)) -> preserves I (catch_ h c).
Proof.
  intros Hc Hh p H. unfold catch_. specialize (Hc p H).
  destruct (c p) as [[a | e | code] p1]; [| apply Hh |]; exact Hc.
Qed.

Lemma preserves_finally {A B} (g : P B) (c : P A) :
  preserves I c -> preserves I g -> preserves I (finally_ g c).
Proof.
  intros Hc Hg p H. unfold finally_. specialize (Hc p H).
  destruct (c p) as [[a | e | code] p1]; [| | exact Hc];
    specialize (Hg p1 Hc); destruct (g p1) as [[b | e' | code] p2]; exact Hg.
Qed.

Lemma preserves_started {A} (c : P A) : preserves I c -> preserves I (started c).
Proof.
  intros Hc p H. unfold started. specialize (Hc p H).
  destruct (c p) as [[a | e | code] p1]; exact Hc.
Qed.

End Preservation.

(** Follows the structure of a stage; what is left are the indifference
    conditions of the property. *)
Ltac preserve :=
  repeat lazymatch goal with
    | |- forall _, _ => intro
    | |- preserves _ (ret _) => apply preserves_ret
    | |- preserves _ (throw _) => apply preserves_throw
    | |- preserves _ (lift _) => apply preserves_lift
    | |- preserves _ (gets _) => apply preserves_gets
    | |- preserves _ (process_exit _) => apply preserves_process_exit
    | |- preserves _ (emit _) => apply preserves_emit; assumption
    | |- preserves _ (set_exitCode _) => apply preserves_set_exitCode; assumption
    | |- preserves _ (set_spinner false) =>
        apply preserves_set_spinner_false; assumption
    | |- preserves _ (set_spinner true) =>
        apply preserves_set_spinner_true; assumption
    | |- preserves _ (on_fs _) => apply preserves_on_fs; assumption
    | |- preserves _ (bind _ _) => apply preserves_bind
    | |- preserves _ (then_ _ _) => apply preserves_then
    | |- preserves _ (catch_ _ _) => apply preserves_catch
    | |- preserves _ (finally_ _ _) => apply preserves_finally
    | |- preserves _ (started _) => apply preserves_started
    | |- preserves _ (match ?x with _ => _ end) => destruct x
    end.

Lemma stopSpinner_preserves I :
  trace_monotone I -> stop_blind I -> preserves I _stopSpinner.
Proof. intros Ht Hs. unfold _stopSpinner. preserve. Qed.

Lemma startSpinner_preserves I env context :
  trace_monotone I -> start_blind I -> preserves I (_startSpinner env context).
Proof. intros Ht Hs. unfold _startSpinner. preserve. Qed.

Lemma preExecuteMessage_preserves I command orgData :
  trace_monotone I -> preserves I (preExecuteMessage command orgData).
Proof. intros Ht. unfold preExecuteMessage. preserve. Qed.

Lemma logTables_preserves I command obj tables :
  trace_monotone I -> preserves I (logTables command obj tables).
Proof.
  intros Ht. induction tables as [| [key val] rest IH]; cbn [logTables].
  - preserve.
  - apply preserves_bind; [| intros _; exact IH].
    unfold logTable. preserve.
Qed.

Lemma logSuccess_preserves I env command context obj :
  trace_monotone I -> preserves I (_logSuccess env command context obj).
Proof.
  intros Ht. unfold _logSuccess, exitCode_or.
  destruct (_isApiMode env context); [preserve |].
  destruct (getColumnData command) as [[tables | columns] |].
  - destruct obj as [| | | | | [|] |]; preserve; apply logTables_preserves, Ht.
  - destruct obj as [| | | | | [|] |]; preserve.
  - destruct obj as [| | | | | [|] |]; preserve.
Qed.

Lemma logError_preserves I env command context err :
  trace_monotone I -> preserves I (_logError env command context err).
Proof. intros Ht. unfold _logError, exitCode_or. preserve. Qed.

Lemma logCommandComplete_preserves I tel cmdName :
  trace_monotone I -> preserves I (_logCommandComplete tel cmdName).
Proof.
  intros Ht. unfold _logCommandComplete, save_startTime, calcUsage. preserve.
Qed.

Lemma exit_preserves I env context :
  trace_monotone I -> preserves I (_exit env context).
Proof. intros Ht. unfold _exit. preserve. Qed.

Lemma succeeded_preserves I env tel command context cmdName obj :
  trace_monotone I -> stop_blind I ->
  preserves I (succeeded env tel command context cmdName obj).
Proof.
  intros Ht Hs. unfold succeeded. preserve;
    auto using stopSpinner_preserves, logSuccess_preserves,
               logCommandComplete_preserves.
Qed.

Lemma failed_preserves I env tel command context cmdName err :
  trace_monotone I -> stop_blind I -> exitCode_blind I ->
  preserves I (failed env tel command context cmdName err).
Proof.
  intros Ht Hs Hc. unfold failed. preserve;
    auto using stopSpinner_preserves, logError_preserves,
               logCommandComplete_preserves, exit_preserves.
Qed.

Lemma success_chain_preserves I env tel command context :
  trace_monotone I -> stop_blind I -> start_blind I -> fs_blind I ->
  preserves I (success_chain env tel command context).
Proof.
  intros Ht Hs Hst Hf. unfold success_chain. preserve;
    auto using startSpinner_preserves, preExecuteMessage_preserves,
               succeeded_preserves.
Qed.

(** The properties used below and what they are indifferent to. *)
Lemma spinner_off_blind :
  let I := fun p => spinner p = false in
  trace_monotone I /\ stop_blind I /\ exitCode_blind I /\ fs_blind I.
Proof. repeat split; intros p; intros; cbn; auto. Qed.

Lemma exitCode_is_blind c :
  let I := fun p => exitCode p = c in
  trace_monotone I /\ stop_blind I /\ start_blind I /\ fs_blind I.
Proof. repeat split; intros p; intros; cbn; auto. Qed.

Lemma fs_is_blind w :
  let I := fun p => fs p = w in
  trace_monotone I /\ stop_blind I /\ start_blind I /\ exitCode_blind I.
Proof. repeat split; intros p; intros; cbn; auto. Qed.

Lemma logged_blind ev :
  let I := fun p => In ev (trace p) in
  trace_monotone I /\ stop_blind I /\ start_blind I /\ exitCode_blind I /\
  fs_blind I.
Proof.
  repeat split; intros p; intros; cbn; auto. apply in_or_app. auto.
Qed.

(** ** Outcomes of the pipeline *)

Lemma execCommand_unfold env tel command context p :
  _execCommand env tel command context p
  = (success_chain env tel command context
     |> then_ (fun obj => _exit env context >> ret obj)
     |> catch_ (failed env tel command context (_determineCommandName context))
     |> finally_ _stopSpinner)
      (mkProcess (trace p) None (spinner p) (fs p)).
Proof. reflexivity. Qed.

Lemma stopSpinner_off p :
  exists p', _stopSpinner p = (Normal tt, p') /\ spinner p' = false.
Proof.
  unfold _stopSpinner, bind, gets. destruct (spinner p) eqn:Hs; cbn; eauto.
Qed.

Lemma stop_first_off {A} (k : unit -> P A) p :
  (forall a, preserves (fun q => spinner q = false) (k a)) ->
  spinner (snd (bind _stopSpinner k p)) = false.
Proof.
  intros Hk. unfold bind. destruct (stopSpinner_off p) as (p1 & -> & Hoff).
  apply Hk, Hoff.
Qed.

Lemma succeeded_off env tel command context cmdName obj p :
  spinner (snd (succeeded env tel command context cmdName obj p)) = false.
Proof.
  destruct spinner_off_blind as (Ht & Hs & Hc & Hf).
  unfold succeeded. apply stop_first_off. intros _. preserve;
    auto using logSuccess_preserves, logCommandComplete_preserves.
Qed.

Lemma failed_off env tel command context cmdName err p :
  spinner (snd (failed env tel command context cmdName err p)) = false.
Proof.
  destruct spinner_off_blind as (Ht & Hs & Hc & Hf).
  unfold failed. apply stop_first_off. intros _. preserve;
    auto using logError_preserves, logCommandComplete_preserves, exit_preserves.
Qed.

Lemma success_chain_not_terminated env tel command context p code :
  fst (success_chain env tel command context p) <> Terminated code.
Proof.
  apply (quiet_exits (success_chain env tel command context) p).
  apply success_chain_confined.
Qed.

Lemma then_normal_off {A B} (f : A -> P B) (c : P A) p b :
  (forall a q, spinner (snd (f a q)) = false) ->
  fst (then_ f c p) = Normal b ->
  spinner (snd (then_ f c p)) = false.
Proof.
  intros Hf. unfold then_, bind.
  destruct (c p) as [[a | e | code] p1]; [intros _; apply Hf |..];
    discriminate.
Qed.

Lemma success_chain_normal_off env tel command context p obj :
  fst (success_chain env tel command context p) = Normal obj ->
  spinner (snd (success_chain env tel command context p)) = false.
Proof.
  unfold success_chain. apply then_normal_off.
  intros a q. apply succeeded_off.
Qed.

(** X8: for a command that acts on the files only, and whatever the
    environment and the outcome, when [_execCommand] is through (settled,
    or the process ended by [_exit]) the spinner is not spinning. *)
Theorem execCommand_leaves_spinner_stopped env tel command context p :
  spinner (snd (_execCommand env tel command context p)) = false.
Proof.
  rewrite execCommand_unfold.
  set (p0 := mkProcess (trace p) None (spinner p) (fs p)).
  destruct spinner_off_blind as (Ht & Hs & Hc & Hf).
  assert (spinner (snd ((success_chain env tel command context
            |> then_ (fun obj => _exit env context >> ret obj)
            |> catch_ (failed env tel command context
                         (_determineCommandName context))) p0)) = false)
    as Hoff.
  { unfold catch_. unfold then_ at 1. unfold bind at 1.
    pose proof (success_chain_normal_off env tel command context p0) as Hn.
    pose proof (success_chain_not_terminated env tel command context p0) as Hterm.
    destruct (success_chain env tel command context p0)
      as [[obj | e | code] p1]; cbn [fst snd] in *.
    - specialize (Hn obj eq_refl). unfold bind.
      pose proof (exit_preserves (fun q => spinner q = false) env context
                    Ht p1 Hn) as He.
      destruct (_exit env context p1) as [[[] | e | code] p2];
        cbn [snd] in *; [exact He | apply failed_off | exact He].
    - apply failed_off.
    - destruct (Hterm code eq_refl). }
  unfold finally_.
  match type of Hoff with spinner (snd (?c p0)) = _ =>
    destruct (c p0) as [[v | e | code] p1] end;
    cbn [snd] in Hoff; [| | exact Hoff];
    destruct (stopSpinner_off p1) as (p2 & -> & Hoff2); exact Hoff2.
Qed.

Lemma success_chain_validation_fails env tel command context e p :
  validating command context = Throw e ->
  success_chain env tel command context p = (Abrupt e, p).
Proof.
  intros Hval. unfold success_chain, then_, bind, ret. rewrite Hval. reflexivity.
Qed.

(** The failure callback for a session without access token, taken
    apart. *)
Lemma failed_unfold env tel command context cmdName err p :
  token_session context = false ->
  exists p2,
    failed env tel command context cmdName err p
    = finally_ (set_exitCode (Some 1%Z) >> _exit env context)
        (_logCommandComplete tel cmdName
         |> then_ (fun _ => emit (LogServerError err) >>
                            lift (logServerError env))) p2 /\
    exitCode p2 = exitCode p /\ fs p2 = fs p.
Proof.
  intros Htoken.
  destruct (stopSpinner_run p) as (p1 & Hstop & _ & Hc1 & Hf1).
  destruct (logError_without_token env command context err p1
              (token_session_off context err Htoken))
    as (p2 & Hrun & Hc2 & _ & Hf2).
  exists p2. split; [| split; congruence].
  unfold failed. unfold bind at 1. rewrite Hstop.
  unfold bind at 1. rewrite Hrun. reflexivity.
Qed.

Lemma server_log_step env tel cmdName err p :
  exists p1,
    (_logCommandComplete tel cmdName
     |> then_ (fun _ => emit (LogServerError err) >>
                        lift (logServerError env))) p
    = (match logServerError env with
       | Ok v => Normal v
       | Throw e => Abrupt e
       end,
       mkProcess (trace p1 ++ [LogServerError err]) (exitCode p1)
                 (spinner p1) (fs p1)) /\
    same_outcome p p1.
Proof.
  destruct (logCommandComplete_same_outcome tel cmdName p) as (p1 & Hrun & Hsame).
  exists p1. split; [| exact Hsame].
  unfold then_. unfold bind at 1. rewrite Hrun.
  unfold bind, emit, modify. destruct (logServerError env); reflexivity.
Qed.

Lemma failed_exitCode env tel command context cmdName err p :
  token_session context = false ->
  exitCode (snd (failed env tel command context cmdName err p)) = Some 1%Z /\
  fs (snd (failed env tel command context cmdName err p)) = fs p /\
  In (LogServerError err)
     (trace (snd (failed env tel command context cmdName err p))).
Proof.
  intros Htoken.
  destruct (failed_unfold env tel command context cmdName err p Htoken)
    as (p2 & -> & Hc2 & Hf2).
  destruct (server_log_step env tel cmdName err p2)
    as (p1 & Hstep & (_ & _ & Hf1 & _)).
  destruct (exitCode_is_blind (Some 1%Z)) as (Ht1 & _).
  destruct (fs_is_blind (fs p)) as (Ht2 & _).
  destruct (logged_blind (LogServerError err)) as (Ht3 & _).
  unfold finally_. rewrite Hstep.
  set (p3 := mkProcess (trace p1 ++ [LogServerError err]) (exitCode p1)
                       (spinner p1) (fs p1)).
  set (p3' := mkProcess (trace p3) (Some 1%Z) (spinner p3) (fs p3)).
  assert ((set_exitCode (Some 1%Z) >> _exit env context) p3
          = _exit env context p3') as Hg by reflexivity.
  pose proof (exit_preserves _ env context Ht1 p3' eq_refl) as H1.
  assert (fs p3' = fs p) as Hfs3 by (cbn; congruence).
  pose proof (exit_preserves _ env context Ht2 p3' Hfs3) as H2.
  assert (In (LogServerError err) (trace p3')) as Hl3
    by (cbn; apply in_or_app; cbn; auto).
  pose proof (exit_preserves _ env context Ht3 p3' Hl3) as H3.
  cbv beta in H1, H2, H3.
  destruct (logServerError env) as [v | e]; rewrite Hg;
    destruct (_exit env context p3') as [[[] | e' | code] p4];
    cbn [snd] in *; auto.
Qed.

Lemma finally_stop_keeps I {A} (c : P A) p :
  trace_monotone I -> stop_blind I ->
  I (snd (c p)) -> I (snd (finally_ _stopSpinner c p)).
Proof.
  intros Ht Hs H. unfold finally_.
  destruct (c p) as [[a | e | code] p1]; cbn [snd] in H; [| | exact H];
    pose proof (stopSpinner_preserves I Ht Hs p1 H) as H';
    destruct (_stopSpinner p1) as [[[] | e' | code] p2]; exact H'.
Qed.

(** X9: when [command.validate] throws, [execute] is not run (the files
    are as before), the error that [validate] threw is the one sent to the
    server error log, and the exit code is 1; this for a session without
    access token, whatever the exit step then does. *)
Theorem validation_failure_skips_execute env tel command context e p :
  validating command context = Throw e ->
  token_session context = false ->
  fs (snd (_execCommand env tel command context p)) = fs p /\
  exitCode (snd (_execCommand env tel command context p)) = Some 1%Z /\
  In (LogServerError e) (trace (snd (_execCommand env tel command context p))).
Proof.
  intros Hval Htoken. rewrite execCommand_unfold.
  set (p0 := mkProcess (trace p) None (spinner p) (fs p)).
  assert ((success_chain env tel command context
           |> then_ (fun obj => _exit env context >> ret obj)
           |> catch_ (failed env tel command context
                        (_determineCommandName context))) p0
          = failed env tel command context (_determineCommandName context) e p0)
    as Hfail.
  { unfold catch_. unfold then_ at 1. unfold bind at 1.
    rewrite (success_chain_validation_fails _ _ _ _ e) by exact Hval.
    reflexivity. }
  destruct (failed_exitCode env tel command context
              (_determineCommandName context) e p0 Htoken) as (Hc & Hf & Hl).
  rewrite <- Hfail in Hc, Hf, Hl.
  destruct (exitCode_is_blind (Some 1%Z)) as (Ht1 & Hs1 & _).
  destruct (fs_is_blind (fs p)) as (Ht2 & Hs2 & _).
  destruct (logged_blind (LogServerError e)) as (Ht3 & Hs3 & _).
  split; [| split].
  - apply (finally_stop_keeps (fun q => fs q = fs p)); assumption.
  - apply (finally_stop_keeps (fun q => exitCode q = Some 1%Z)); assumption.
  - apply (finally_stop_keeps (fun q => In (LogServerError e) (trace q)));
      assumption.
Qed.

Lemma exit_now env context p :
  resolve_softExit env context = Ok None ->
  logger_isError env = true ->
  fst (_exit env context p) = Terminated (default 0%Z (exitCode p)).
Proof.
  intros Hsoft Herr. unfold _exit. unfold bind, emit, modify, lift.
  rewrite Hsoft. cbn. rewrite Herr. reflexivity.
Qed.

Lemma succeeded_run env tel command context cmdName v q :
  (forall q', fst (_logSuccess env command context v q') = Normal tt) ->
  exists p6,
    succeeded env tel command context cmdName v q = (Normal v, p6) /\
    exitCode p6 = exitCode q /\ fs p6 = fs q.
Proof.
  intros Hlog.
  destruct (exitCode_is_blind (exitCode q)) as (Ht & Hs & _).
  destruct (fs_is_blind (fs q)) as (Ht' & Hs' & _).
  pose proof (succeeded_preserves _ env tel command context cmdName v
                Ht Hs q eq_refl) as Hcode.
  pose proof (succeeded_preserves _ env tel command context cmdName v
                Ht' Hs' q eq_refl) as Hfs.
  cbv beta in Hcode, Hfs.
  assert (exists p6, succeeded env tel command context cmdName v q
                     = (Normal v, p6)) as [p6 Hrun].
  { unfold succeeded, then_, bind, ret.
    destruct (stopSpinner_run q) as (q4 & -> & _).
    specialize (Hlog q4).
    destruct (_logSuccess env command context v q4) as [r q5].
    cbn in Hlog. subst r.
    destruct (logCommandComplete_fulfilled tel cmdName q5) as (q6 & ->).
    eauto. }
  exists p6. rewrite Hrun in Hcode, Hfs. auto.
Qed.

(** The chain up to the success callback, when every stage goes through. *)
Lemma success_chain_run env tel command context fixedContext orgData v w' p :
  validating command context = Ok fixedContext ->
  orgConfigWait context fixedContext = Ok orgData ->
  execute command (default context fixedContext) (fs p) = (Normal v, w') ->
  (forall q, fst (_logSuccess env command context v q) = Normal tt) ->
  exists p6,
    success_chain env tel command context p = (Normal v, p6) /\
    exitCode p6 = exitCode p /\ fs p6 = w'.
Proof.
  intros Hval Horg Hexec Hlog.
  destruct (exitCode_is_blind (exitCode p)) as (Ht & Hs & Hst & Hf).
  pose proof (success_chain_preserves _ env tel command context
                Ht Hs Hst Hf p eq_refl) as Hcode.
  cbv beta in Hcode.
  assert (exists p6, success_chain env tel command context p = (Normal v, p6)
                     /\ fs p6 = w')
    as (p6 & Hrun & Hfs).
  { unfold success_chain, then_, bind, ret. rewrite Hval. cbn [lift ret].
    rewrite Horg. cbn [lift ret fst snd].
    destruct (preExecuteMessage_run command orgData p) as (q1 & -> & Hfs1).
    destruct (startSpinner_run env context q1) as (q2 & -> & Hfs2).
    rewrite (on_fs_run _ v w') by (rewrite Hfs2, Hfs1; exact Hexec).
    match goal with |- context [succeeded _ _ _ _ ?n _ ?q] =>
      destruct (succeeded_run env tel command context n v q Hlog)
        as (p6 & -> & _ & Hfs6) end.
    eauto. }
  exists p6. rewrite Hrun in Hcode. auto.
Qed.

Lemma success_chain_execute_fails env tel command context fixedContext orgData
    e w' p :
  validating command context = Ok fixedContext ->
  orgConfigWait context fixedContext = Ok orgData ->
  execute command (default context fixedContext) (fs p) = (Abrupt e, w') ->
  exists p5, success_chain env tel command context p = (Abrupt e, p5) /\
             fs p5 = w'.
Proof.
  intros Hval Horg Hexec.
  unfold success_chain, then_, bind, ret. rewrite Hval. cbn [lift ret].
  rewrite Horg. cbn [lift ret fst snd].
  destruct (preExecuteMessage_run command orgData p) as (q1 & -> & Hfs1).
  destruct (startSpinner_run env context q1) as (q2 & -> & Hfs2).
  unfold on_fs. rewrite Hfs2, Hfs1, Hexec. eauto.
Qed.

(** X10: with no soft exit configured and the log level at error, a
    command that succeeds (validation and the org step go through,
    [execute] resolves, the success reporter returns) ends the process
    with exit code 0. *)
Theorem success_ends_process_with_zero env tel command context fixedContext
    orgData v w' p :
  validating command context = Ok fixedContext ->
  orgConfigWait context fixedContext = Ok orgData ->
  execute command (default context fixedContext) (fs p) = (Normal v, w') ->
  (forall q, fst (_logSuccess env command context v q) = Normal tt) ->
  resolve_softExit env context = Ok None ->
  logger_isError env = true ->
  fst (_execCommand env tel command context p) = Terminated 0%Z.
Proof.
  intros Hval Horg Hexec Hlog Hsoft Herr. rewrite execCommand_unfold.
  set (p0 := mkProcess (trace p) None (spinner p) (fs p)).
  destruct (success_chain_run env tel command context fixedContext orgData
              v w' p0 Hval Horg Hexec Hlog) as (p6 & Hrun & Hcode & _).
  unfold finally_, catch_. unfold then_ at 1. unfold bind at 1.
  rewrite Hrun. unfold bind.
  pose proof (exit_now env context p6 Hsoft Herr) as Hexit.
  rewrite Hcode in Hexit.
  destruct (_exit env context p6) as [r p7]. cbn in Hexit. subst r.
  reflexivity.
Qed.

Lemma failed_terminates env tel command context cmdName err p :
  token_session context = false ->
  resolve_softExit env context = Ok None ->
  logger_isError env = true ->
  fst (failed env tel command context cmdName err p) = Terminated 1%Z.
Proof.
  intros Htoken Hsoft Herr.
  destruct (failed_unfold env tel command context cmdName err p Htoken)
    as (p2 & -> & _).
  destruct (server_log_step env tel cmdName err p2) as (p1 & Hstep & _).
  unfold finally_. rewrite Hstep.
  set (p3 := mkProcess (trace p1 ++ [LogServerError err]) (exitCode p1)
                       (spinner p1) (fs p1)).
  set (p3' := mkProcess (trace p3) (Some 1%Z) (spinner p3) (fs p3)).
  assert ((set_exitCode (Some 1%Z) >> _exit env context) p3
          = _exit env context p3') as Hg by reflexivity.
  pose proof (exit_now env context p3' Hsoft Herr) as Hexit.
  destruct (logServerError env) as [v | e]; rewrite Hg;
    destruct (_exit env context p3') as [r p4]; cbn in Hexit; subst r;
    reflexivity.
Qed.

(** X11: with no soft exit configured and the log level at error, a
    command whose [execute] rejects ends the process with exit code 1, for
    a session without access token and whatever telemetry and the server
    error log do. *)
Theorem failure_ends_process_with_one env tel command context fixedContext
    orgData e w' p :
  validating command context = Ok fixedContext ->
  orgConfigWait context fixedContext = Ok orgData ->
  execute command (default context fixedContext) (fs p) = (Abrupt e, w') ->
  token_session context = false ->
  resolve_softExit env context = Ok None ->
  logger_isError env = true ->
  fst (_execCommand env tel command context p) = Terminated 1%Z.
Proof.
  intros Hval Horg Hexec Htoken Hsoft Herr. rewrite execCommand_unfold.
  set (p0 := mkProcess (trace p) None (spinner p) (fs p)).
  destruct (success_chain_execute_fails env tel command context fixedContext
              orgData e w' p0 Hval Horg Hexec) as (p5 & Hrun & _).
  unfold finally_, catch_. unfold then_ at 1. unfold bind at 1.
  rewrite Hrun.
  pose proof (failed_terminates env tel command context
                (_determineCommandName context) e p5 Htoken Hsoft Herr) as Hf.
  destruct (failed env tel command context (_determineCommandName context) e p5)
    as [r p6]. cbn in Hf. subst r. reflexivity.
Qed.




(** X14: when the stored start time is less than a day old,
    [_logCommandComplete] writes its line to the log and does nothing
    else: no usage is sent, the analytics are not cleared and the start
    time is not saved. *)
Theorem logCommandComplete_within_a_day tel cmdName t p :
  getGlobalConfig tel = Ok (Some t) ->
  t <> 0%Z ->
  (now tel - t < dayInMilliseconds)%Z ->
  _logCommandComplete tel cmdName p
  = (Normal tt, with_events p [done_line cmdName]).
Proof.
  intros Hcfg Hne Hlt.
  unfold _logCommandComplete, then_, catch_, bind, emit, modify, lift, ret.
  rewrite Hcfg. cbv beta iota.
  rewrite (proj2 (Z.eqb_neq t 0) Hne).
  rewrite (proj2 (Z.leb_gt _ _) Hlt).
  reflexivity.
Qed.

(** X15: when no start time is stored, or the stored one is 0, and less
    than a day has passed since the start of the day,
    [_logCommandComplete] stores the start of the day, and fulfils also
    when storing it fails. *)
Theorem logCommandComplete_first_run tel cmdName p :
  getGlobalConfig tel = Ok None \/ getGlobalConfig tel = Ok (Some 0%Z) ->
  (now tel - startOfDay tel < dayInMilliseconds)%Z ->
  _logCommandComplete tel cmdName p
  = (Normal tt,
     with_events p [done_line cmdName; SaveGlobalConfig (startOfDay tel)]).
Proof.
  intros Hcfg Hlt.
  unfold _logCommandComplete, then_, catch_, bind, emit, modify, lift, ret,
    started, save_startTime, then_, bind, emit, modify, lift.
  destruct Hcfg as [-> | ->]; cbv beta iota;
    change (0 =? 0)%Z with true; cbv beta iota;
    rewrite (proj2 (Z.leb_gt _ _) Hlt);
    destruct (saveGlobalConfig tel (startOfDay tel)) as [[] | e]; cbn;
    unfold with_events; cbn; rewrite <- app_assoc; reflexivity.
Qed.

(** X16: when the stored start time is a day old or more and sending the
    usage records fails, the failure is swallowed, and neither are the
    analytics cleared nor is the start time reset. *)
Theorem failed_submission_keeps_analytics tel cmdName t orgId cs e p :
  getGlobalConfig tel = Ok (Some t) ->
  t <> 0%Z ->
  (dayInMilliseconds <= now tel - t)%Z ->
  hubOrg_getConfig tel = Ok orgId ->
  analytics_status tel <> 1%Z ->
  analytics_commands tel = Ok (Some cs) ->
  logServerUsages tel = Throw e ->
  _logCommandComplete tel cmdName p
  = (Normal tt,
     with_events p [done_line cmdName; LogServerUsages (usages_of tel orgId cs)]).
Proof.
  intros Hcfg Hne Hday Hhub Hstatus Hcmds Hsend.
  unfold _logCommandComplete, calcUsage, then_, catch_, bind, emit, modify,
    lift, ret.
  rewrite Hcfg. cbv beta iota.
  rewrite (proj2 (Z.eqb_neq t 0) Hne).
  rewrite (proj2 (Z.leb_le _ _) Hday).
  rewrite Hhub. cbv beta iota.
  rewrite (proj2 (Z.eqb_neq _ 1) Hstatus), Hcmds. cbv beta iota.
  unfold then_, bind, emit, modify, lift. rewrite Hsend.
  unfold with_events, usages_of. cbn [trace exitCode spinner fs fst snd].
  rewrite <- app_assoc. reflexivity.
Qed.

(** X17: when the stored start time is a day old or more and
    [sfdx analytics] exits with status 1, or its output cannot be parsed,
    no usage record is sent, and the analytics are cleared and the start
    time reset all the same; a failure to save the start time is
    swallowed. *)
Theorem skipped_submission_still_clears tel cmdName t orgId p :
  getGlobalConfig tel = Ok (Some t) ->
  t <> 0%Z ->
  (dayInMilliseconds <= now tel - t)%Z ->
  hubOrg_getConfig tel = Ok orgId ->
  analytics_status tel = 1%Z \/ (exists e, analytics_commands tel = Throw e) ->
  _logCommandComplete tel cmdName p
  = (Normal tt,
     with_events p
       [done_line cmdName; AnalyticsClear; SaveGlobalConfig (startOfDay tel)]).
Proof.
  intros Hcfg Hne Hday Hhub Hskip.
  unfold _logCommandComplete, then_, catch_, bind, emit, modify, lift, ret.
  rewrite Hcfg. cbv beta iota.
  rewrite (proj2 (Z.eqb_neq t 0) Hne).
  rewrite (proj2 (Z.leb_le _ _) Hday).
  rewrite Hhub. cbv beta iota.
  assert (calcUsage tel orgId = ret tt) as ->.
  { unfold calcUsage. destruct Hskip as [-> | (e & ->)]; [reflexivity |].
    destruct (analytics_status tel =? 1)%Z; reflexivity. }
  unfold ret, save_startTime, then_, bind, emit, modify, lift.
  cbn [trace exitCode spinner fs fst snd].
  destruct (saveGlobalConfig tel (startOfDay tel)) as [[] | e];
    unfold with_events; cbn [trace exitCode spinner fs];
    repeat rewrite <- app_assoc; reflexivity.
Qed.

Lemma recordCommand_same_key tel orgId usages c :
  executions_in (recordCommand tel orgId usages c) (commandKey c)
  = (executions_in usages (commandKey c) + 1)%Z /\
  errors_in (recordCommand tel orgId usages c) (commandKey c)
  = (errors_in usages (commandKey c)
     + (if (ac_status c =? 0)%Z then 0 else 1))%Z /\
  recordCommand tel orgId usages c !! commandKey c <> None.
Proof.
  unfold executions_in, errors_in, recordCommand.
  rewrite lookup_insert_eq.
  unfold updateMinMax, countExecution, updateAverage, countError, newUsage.
  destruct (usages !! commandKey c) as [u |];
    destruct (ac_status c =? 0)%Z;
    cbn [totalExecutions totalErrors avgRuntime minRuntime maxRuntime];
    repeat match goal with |- context [if ?b then _ else _] => destruct b end;
    cbn [totalExecutions totalErrors avgRuntime minRuntime maxRuntime];
    repeat split; try lia; discriminate.
Qed.

Lemma recordCommand_other_key tel orgId usages c k :
  commandKey c <> k ->
  recordCommand tel orgId usages c !! k = usages !! k.
Proof.
  intros Hne. unfold recordCommand. apply lookup_insert_ne. exact Hne.
Qed.

Lemma fold_recordCommand_counts tel orgId cs :
  forall usages k,
    let usages' := fold_left (recordCommand tel orgId) cs usages in
    executions_in usages' k
    = (executions_in usages k + Z.of_nat (length (under_key k cs)))%Z /\
    errors_in usages' k
    = (errors_in usages k + Z.of_nat (length (failures (under_key k cs))))%Z /\
    (usages' !! k = None <-> usages !! k = None /\ under_key k cs = []).
Proof.
  induction cs as [| c cs IH]; intros usages k.
  - cbn. repeat split; try lia; tauto.
  - cbv zeta. cbn [fold_left].
    specialize (IH (recordCommand tel orgId usages c) k).
    cbv zeta in IH.
    destruct IH as (IHe & IHr & IHn).
    unfold under_key in *. cbn [List.filter].
    destruct (String.eqb_spec (commandKey c) k) as [<- | Hne].
    + destruct (recordCommand_same_key tel orgId usages c) as (He & Hr & Hn).
      unfold failures in *. cbn [List.filter].
      rewrite IHe, IHr, He, Hr.
      destruct (ac_status c =? 0)%Z; cbn [negb length];
        (split; [lia | split; [lia |]]);
        (split; [intros H; apply IHn in H; tauto
                | intros [_ H]; discriminate]).
    + unfold executions_in, errors_in in *.
      rewrite (recordCommand_other_key tel orgId usages c k Hne) in *.
      auto.
Qed.

(** X18: the usage record that [calcUsage] sends for a key counts the
    commands with that key and, of those, the ones with a status other
    than 0; a key has a record exactly when some command has it. *)
Theorem usage_counts tel orgId cs k :
  executions_in (usages_of tel orgId cs) k
  = Z.of_nat (length (under_key k cs)) /\
  errors_in (usages_of tel orgId cs) k
  = Z.of_nat (length (failures (under_key k cs))) /\
  (usages_of tel orgId cs !! k = None <-> under_key k cs = []).
Proof.
  destruct (fold_recordCommand_counts tel orgId cs ∅ k) as (He & Hr & Hn).
  unfold usages_of. rewrite He, Hr.
  unfold executions_in, errors_in. rewrite lookup_empty.
  repeat split; try lia.
  - intros H. apply Hn in H. tauto.
  - intros H. apply Hn. split; [apply lookup_empty | exact H].
Qed.





Lemma execute_failure_outcome env tel command context fixedContext orgData
    e w' p :
  validating command context = Ok fixedContext ->
  orgConfigWait context fixedContext = Ok orgData ->
  execute command (default context fixedContext) (fs p) = (Abrupt e, w') ->
  token_session context = false ->
  fs (snd (_execCommand env tel command context p)) = w' /\
  exitCode (snd (_execCommand env tel command context p)) = Some 1%Z /\
  In (LogServerError e) (trace (snd (_execCommand env tel command context p))).
Proof.
  intros Hval Horg Hexec Htoken. rewrite execCommand_unfold.
  set (p0 := mkProcess (trace p) None (spinner p) (fs p)).
  destruct (success_chain_execute_fails env tel command context fixedContext
              orgData e w' p0 Hval Horg Hexec) as (p5 & Hrun & Hfs5).
  assert ((success_chain env tel command context
           |> then_ (fun obj => _exit env context >> ret obj)
           |> catch_ (failed env tel command context
                        (_determineCommandName context))) p0
          = failed env tel command context (_determineCommandName context) e p5)
    as Hfail.
  { unfold catch_. unfold then_ at 1. unfold bind at 1. rewrite Hrun.
    reflexivity. }
  destruct (failed_exitCode env tel command context
              (_determineCommandName context) e p5 Htoken) as (Hc & Hf & Hl).
  rewrite Hfs5 in Hf. rewrite <- Hfail in Hc, Hf, Hl.
  destruct (exitCode_is_blind (Some 1%Z)) as (Ht1 & Hs1 & _).
  destruct (fs_is_blind w') as (Ht2 & Hs2 & _).
  destruct (logged_blind (LogServerError e)) as (Ht3 & Hs3 & _).
  split; [| split].
  - apply (finally_stop_keeps (fun q => fs q = w')); assumption.
  - apply (finally_stop_keeps (fun q => exitCode q = Some 1%Z)); assumption.
  - apply (finally_stop_keeps (fun q => In (LogServerError e) (trace q)));
      assumption.
Qed.

(** X20: the [split] command run on a plan file that does not exist
    leaves the files as they are, sets the exit code 1 and sends to the
    server error log the failed lookup of the message text, not an
    [InvalidDataImport] error; this for a session without access token. *)
Theorem run_missing_plan env tel context orgData p :
  disk (fs p) !! path_resolve (cwd (fs p)) (flags_dataplan context) = None ->
  orgConfigWait context (Some context) = Ok orgData ->
  token_session context = false ->
  fs (snd (run env tel context p)) = fs p /\
  exitCode (snd (run env tel context p)) = Some 1%Z /\
  In (LogServerError (lookup_failure "Could not find specified file"))
     (trace (snd (run env tel context p))).
Proof.
  intros Hmissing Horg Htoken. unfold run.
  apply (execute_failure_outcome env tel split_command context (Some context)
           orgData); [reflexivity | exact Horg | | exact Htoken].
  cbn [execute split_command default]. unfold bind, id.
  rewrite (split_missing_manifest context (fs p) Hmissing). reflexivity.
Qed.

(** X21: when [data.split] goes through and a soft exit is configured,
    the [split] command resolves with [true], leaves the files as
    [data.split] left them and the exit code unset. *)
Theorem run_resolves_true env tel context orgData w' b p :
  orgConfigWait context (Some context) = Ok orgData ->
  split context (fs p) = (Normal tt, w') ->
  resolve_softExit env context = Ok (Some b) ->
  fst (run env tel context p) = Normal (VBool true) /\
  fs (snd (run env tel context p)) = w' /\
  exitCode (snd (run env tel context p)) = None.
Proof.
  intros Horg Hsplit Hsoft. unfold run. rewrite execCommand_unfold.
  set (p0 := mkProcess (trace p) None (spinner p) (fs p)).
  assert (forall q, fst (_logSuccess env split_command context (VBool true) q)
                    = Normal tt) as Hlog.
  { intros q. unfold _logSuccess. destruct (_isApiMode env context); reflexivity. }
  assert (execute split_command (default context (Some context)) (fs p0)
          = (Normal (VBool true), w')) as Hexec.
  { cbn [execute split_command default fs p0]. unfold bind, id.
    rewrite Hsplit. reflexivity. }
  destruct (success_chain_run env tel split_command context (Some context)
              orgData (VBool true) w' p0 eq_refl Horg Hexec Hlog)
    as (p6 & Hrun & Hcode & Hfs).
  assert ((success_chain env tel split_command context
           |> then_ (fun obj => _exit env context >> ret obj)
           |> catch_ (failed env tel split_command context
                        (_determineCommandName context))) p0
          = (Normal (VBool true),
             mkProcess (trace p6 ++ [ExitCalled; ExitDecided SoftExit])
                       (exitCode p6) (spinner p6) (fs p6))) as Hchain.
  { unfold catch_. unfold then_ at 1. unfold bind at 1. rewrite Hrun.
    unfold _exit, bind, emit, modify, lift, ret. rewrite Hsoft.
    cbn [trace exitCode spinner fs]. rewrite <- app_assoc. reflexivity. }
  unfold finally_. rewrite Hchain.
  match goal with |- context [_stopSpinner ?q] =>
    destruct (stopSpinner_run q) as (q' & -> & _ & Hc' & Hf') end.
  subst p0. cbn [fst snd exitCode fs] in *. repeat split; congruence.
Qed.


Lemma unset_or_one_blind :
  trace_monotone exit_code_unset_or_one /\ stop_blind exit_code_unset_or_one /\
  start_blind exit_code_unset_or_one /\ fs_blind exit_code_unset_or_one.
Proof. repeat split; intros p; intros; exact H. Qed.

Lemma failed_unset_or_one env tel command context cmdName err :
  preserves exit_code_unset_or_one (failed env tel command context cmdName err).
Proof.
  destruct unset_or_one_blind as (Ht & Hs & _).
  unfold failed. preserve;
    auto using stopSpinner_preserves, logError_preserves,
               logCommandComplete_preserves, exit_preserves.
  intros p _. right. reflexivity.
Qed.

Lemma execCommand_unset_or_one env tel command context p :
  exit_code_unset_or_one (snd (_execCommand env tel command context p)).
Proof.
  destruct unset_or_one_blind as (Ht & Hs & Hst & Hf).
  rewrite execCommand_unfold.
  assert (preserves exit_code_unset_or_one
            (success_chain env tel command context
             |> then_ (fun obj => _exit env context >> ret obj)
             |> catch_ (failed env tel command context
                          (_determineCommandName context))
             |> finally_ _stopSpinner)) as Hall.
  { preserve;
      auto using success_chain_preserves, exit_preserves, failed_unset_or_one,
                 stopSpinner_preserves. }
  apply Hall. left. reflexivity.
Qed.

(** X23: whatever [process.exitCode] was before, and however the [split]
    command ends, after [run] it is unset or 1: the code of an earlier
    command does not leak into this one, and no other code is ever set. *)
Theorem run_exit_code_unset_or_one env tel context p :
  exit_code_unset_or_one (snd (run env tel context p)).
Proof. apply execCommand_unset_or_one. Qed.

End Plugin.

(** * Sample runs *)




Lemma logSuccess_empty_array_throws_witness :
  _isApiMode quiet_env plan_context = false /\
  _logSuccess inspect_plain format_append quiet_env
      (split_command inspect_plain format_append) plan_context (VArr [])
      (initial_process empty_world)
    = (Abrupt (lookup_failure inspect_plain format_append "noResultsFound"),
       initial_process empty_world).
Proof.
  split; [reflexivity |].
  apply (logSuccess_empty_array_throws inspect_plain format_append); reflexivity.
Defined.

Lemma logError_action_lookup_throws_witness :
  needs_instanceUrl_action token_context (newError "Session expired or invalid")
    = true /\
  _logError inspect_plain format_append quiet_env
      (split_command inspect_plain format_append) token_context
      (newError "Session expired or invalid") (initial_process empty_world)
    = (Abrupt (lookup_failure inspect_plain format_append "invalidInstanceUrlForAccessTokenAction"),
       initial_process empty_world).
Proof.
  split; [reflexivity |].
  apply (logError_action_lookup_throws inspect_plain format_append); reflexivity.
Defined.




(** ** Sample runs of the further properties *)

Lemma getMessage_failure_shape_witness :
  let e := lookup_failure inspect_plain format_append "noResultsFound" in
  getMessage inspect_plain format_append "noResultsFound" None "default" = Throw e /\
  ((messages "default" = None /\ err_name e = "TypeError") \/
   (exists t, messages "default" = Some t /\
              table_get t "noResultsFound" = None /\
              err_name e = "Error" /\
              String.prefix "undefined" (err_message e) = true)).
Proof.
  intros e.
  assert (getMessage inspect_plain format_append "noResultsFound" None "default"
          = Throw e) as H by reflexivity.
  split; [exact H |].
  exact (getMessage_failure_shape inspect_plain format_append
           "noResultsFound" None "default" e H).
Defined.


Lemma chunk_fileName_keeps_two_parts_witness :
  chunk_fileName (path_join "exports/2017" ("big" +:+ "." +:+ "json" +:+ ".bak")) 200
  = "big" +:+ decimal 200 +:+ "." +:+ "json".
Proof.
  apply (chunk_fileName_keeps_two_parts "exports/2017" "big" "json" ".bak" 200);
    try reflexivity.
  right. exists "bak". split; reflexivity.
Defined.

Lemma chunk_fileName_without_extension_witness :
  chunk_fileName "accounts" 0 = "accounts" +:+ decimal 0 +:+ ".undefined".
Proof.
  apply (chunk_fileName_without_extension "accounts" 0); reflexivity.
Defined.

Lemma split_small_plan_merges_entries_witness :
  let w := two_entry_world in
  let entries := [["a.json"]; ["b.json"]] in
  let filepath := path_resolve (cwd w) (flags_dataplan plan_context) in
  exists w' ws,
    split inspect_plain format_append plan_context w = (Normal tt, w') /\
    written w' = written w ++ ws /\
    length ws = length entries /\
    Forall (fun nc => fst nc = filepath) ws /\
    manifest_after filepath w'
    = Some (PlanJson (replicate (length entries) (concat entries))).
Proof.
  intros w entries filepath.
  apply (split_small_plan_merges_entries inspect_plain format_append
           plan_context w entries).
  - unfold world_ok. cbn. lia.
  - reflexivity.
  - reflexivity.
  - discriminate.
  - repeat constructor; exists (sample_records 1);
      (split; [reflexivity | cbn; lia]).
Defined.

Lemma split_keeps_only_last_oversized_file_witness :
  let w := mixed_world in
  let filepath := path_resolve (cwd w) (flags_dataplan plan_context) in
  exists w',
    split inspect_plain format_append plan_context w = (Normal tt, w') /\
    manifest_after filepath w'
    = Some (PlanJson [chunk_names "big.json" (length (sample_records 201))]).
Proof.
  intros w filepath.
  apply (split_keeps_only_last_oversized_file inspect_plain format_append
           plan_context w ["small.json"] "big.json" (sample_records 201)).
  - unfold world_ok. cbn. lia.
  - reflexivity.
  - repeat constructor. exists (sample_records 1). reflexivity.
  - reflexivity.
  - vm_compute. lia.
Defined.


Lemma validation_failure_skips_execute_witness :
  let p := initial_process two_entry_world in
  let r := _execCommand inspect_plain format_append quiet_env quiet_telemetry
             rejecting_command plan_context p in
  fs (snd r) = fs p /\
  exitCode (snd r) = Some 1%Z /\
  In (LogServerError (newError "Unknown flag")) (trace (snd r)).
Proof.
  intros p r.
  apply (validation_failure_skips_execute inspect_plain format_append
           quiet_env quiet_telemetry rejecting_command plan_context
           (newError "Unknown flag") p); reflexivity.
Defined.

Lemma success_ends_process_with_zero_witness :
  let command := split_command inspect_plain format_append in
  let p := initial_process two_entry_world in
  fst (_execCommand inspect_plain format_append hard_exit_env quiet_telemetry
         command plan_context p) = Terminated 0%Z.
Proof.
  intros command p.
  apply (success_ends_process_with_zero inspect_plain format_append
           hard_exit_env quiet_telemetry command plan_context
           (Some plan_context) VUndefined (VBool true)
           (snd (execute command plan_context two_entry_world)) p).
  - reflexivity.
  - reflexivity.
  - vm_compute. reflexivity.
  - intros q. reflexivity.
  - reflexivity.
  - reflexivity.
Defined.

Lemma failure_ends_process_with_one_witness :
  let command := split_command inspect_plain format_append in
  let p := initial_process empty_world in
  fst (_execCommand inspect_plain format_append hard_exit_env quiet_telemetry
         command plan_context p) = Terminated 1%Z.
Proof.
  intros command p.
  apply (failure_ends_process_with_one inspect_plain format_append
           hard_exit_env quiet_telemetry command plan_context
           (Some plan_context) VUndefined
           (lookup_failure inspect_plain format_append
              "Could not find specified file")
           empty_world p); reflexivity.
Defined.


Lemma logCommandComplete_within_a_day_witness :
  let p := initial_process empty_world in
  _logCommandComplete quiet_telemetry "force:data:split" p
  = (Normal tt, with_events p [done_line "force:data:split"]).
Proof.
  intros p.
  apply (logCommandComplete_within_a_day quiet_telemetry "force:data:split"
           1496275200000%Z p).
  - reflexivity.
  - discriminate.
  - vm_compute. reflexivity.
Defined.

Lemma logCommandComplete_first_run_witness :
  let p := initial_process empty_world in
  _logCommandComplete first_run_telemetry "force:data:split" p
  = (Normal tt,
     with_events p [done_line "force:data:split";
                    SaveGlobalConfig (startOfDay first_run_telemetry)]).
Proof.
  intros p.
  apply (logCommandComplete_first_run first_run_telemetry "force:data:split" p).
  - left. reflexivity.
  - vm_compute. reflexivity.
Defined.

Lemma failed_submission_keeps_analytics_witness :
  let p := initial_process empty_world in
  _logCommandComplete stale_telemetry "force:data:split" p
  = (Normal tt,
     with_events p [done_line "force:data:split";
                    LogServerUsages (usages_of stale_telemetry "00D" sample_commands)]).
Proof.
  intros p.
  apply (failed_submission_keeps_analytics stale_telemetry "force:data:split"
           1496000000000%Z "00D" sample_commands (newError "ECONNREFUSED") p).
  - reflexivity.
  - discriminate.
  - vm_compute. discriminate.
  - reflexivity.
  - discriminate.
  - reflexivity.
  - reflexivity.
Defined.

Lemma skipped_submission_still_clears_witness :
  let p := initial_process empty_world in
  _logCommandComplete skipping_telemetry "force:data:split" p
  = (Normal tt,
     with_events p [done_line "force:data:split"; AnalyticsClear;
                    SaveGlobalConfig (startOfDay skipping_telemetry)]).
Proof.
  intros p.
  apply (skipped_submission_still_clears skipping_telemetry "force:data:split"
           1496000000000%Z "00D" p).
  - reflexivity.
  - discriminate.
  - vm_compute. discriminate.
  - reflexivity.
  - left. reflexivity.
Defined.

Lemma run_missing_plan_witness :
  let p := initial_process empty_world in
  let r := run inspect_plain format_append quiet_env quiet_telemetry plan_context p in
  fs (snd r) = fs p /\
  exitCode (snd r) = Some 1%Z /\
  In (LogServerError (lookup_failure inspect_plain format_append
                        "Could not find specified file"))
     (trace (snd r)).
Proof.
  intros p r.
  apply (run_missing_plan inspect_plain format_append quiet_env quiet_telemetry
           plan_context VUndefined p); reflexivity.
Defined.

Lemma run_resolves_true_witness :
  let p := initial_process two_entry_world in
  let r := run inspect_plain format_append quiet_env quiet_telemetry plan_context p in
  let w' := snd (split inspect_plain format_append plan_context two_entry_world) in
  fst r = Normal (VBool true) /\
  fs (snd r) = w' /\
  exitCode (snd r) = None.
Proof.
  intros p r w'.
  apply (run_resolves_true inspect_plain format_append quiet_env quiet_telemetry
           plan_context VUndefined w' true p).
  - reflexivity.
  - vm_compute. reflexivity.
  - reflexivity.
Defined.
